(** * Lazos de Amor point of sale: the client data layer of [src/app.js]

    A shallow embedding of the API client ([API.getAll], [API.save],
    [API.update], [API.delete]), of the bootstrap routines
    ([loadInitialData], [initializeDefaultData], [loadCashClosures]), of
    [Utils.getDateKey] and [Utils.getMonthKey] and of [Storage], followed
    by the properties of the specification that concern them and by
    further properties of the code.

    The program is asynchronous but single threaded and awaits every
    promise at once, so an [async] function is a computation over a world
    (the global [AppState], the log of observable events, the number of
    identifiers drawn) that ends with a value or with a thrown error. *)

From stdpp Require Import gmap strings list fin_maps pretty.
From Stdlib Require Import ZArith String Ascii Lia.

Local Open Scope string_scope.
Local Open Scope Z_scope.
Local Set Warnings "-register-all".

(** ** JavaScript values

    The values that reach this layer are parsed JSON. Numbers are kept as
    integers: the program only tests them for truthiness and for [=== 0].
    A string is the sequence of the bytes of its UTF-8 encoding. An array
    carries, besides its elements, the named properties assigned to it
    after it was built ([extra]); [JSON.parse] yields arrays without any. *)
Inductive value : Type :=
| VUndef
| VNull
| VBool (b : bool)
| VNum (n : Z)
| VStr (s : string)
| VArr (elems : list value) (extra : gmap string value)
| VObj (props : gmap string value).

(** [[]] and [{}]. *)
Definition empty_array : value := VArr [] ∅.
Definition empty_object : value := VObj ∅.

(** A record literal [{k1: v1, ...}]. *)
Definition object_of (fields : list (string * value)) : value :=
  VObj (list_to_map fields).

(** ToBoolean. *)
Definition truthy (v : value) : bool :=
  match v with
  | VUndef | VNull => false
  | VBool b => b
  | VNum n => negb (n =? 0)
  | VStr s => negb (String.eqb s "")
  | VArr _ _ | VObj _ => true
  end.

(** [v === undefined]. *)
Definition is_undefined (v : value) : bool :=
  match v with VUndef => true | _ => false end.

(** [v === null || v === undefined]: reading a property of such a value
    throws. *)
Definition nullish (v : value) : bool :=
  match v with VUndef | VNull => true | _ => false end.

(** [Array.isArray(v)]. *)
Definition isArray (v : value) : bool :=
  match v with VArr _ _ => true | _ => false end.

(** [v === s] for a string literal [s]. *)
Definition is_string (s : string) (v : value) : bool :=
  match v with VStr s' => String.eqb s' s | _ => false end.

(** [v === 0]. *)
Definition is_zero (v : value) : bool :=
  match v with VNum n => n =? 0 | _ => false end.

(** [v.k] on a value that is neither [null] nor [undefined], for the
    property names this program reads ([length] and plain field names,
    never an array index): own properties of objects, [length] and the
    later-assigned properties of arrays, [length] of strings; anything
    else is [undefined]. *)
Definition get_prop (v : value) (k : string) : value :=
  match v with
  | VObj o => default VUndef (o !! k)
  | VArr l x =>
      if String.eqb k "length" then VNum (Z.of_nat (List.length l))
      else default VUndef (x !! k)
  | VStr s =>
      if String.eqb k "length" then VNum (Z.of_nat (String.length s))
      else VUndef
  | _ => VUndef
  end.

(** [v.k = x] for a plain field name [k]. The script is a classic one
    (it exports through [window], without a strict-mode directive), where
    an assignment to a property of a number, string or boolean is ignored. *)
Definition set_prop (v : value) (k : string) (x : value) : value :=
  match v with
  | VObj o => VObj (<[k := x]> o)
  | VArr l e => VArr l (<[k := x]> e)
  | _ => v
  end.

(** [delete v.k] for a plain field name [k]. *)
Definition delete_prop (v : value) (k : string) : value :=
  match v with
  | VObj o => VObj (delete k o)
  | VArr l e => VArr l (delete k e)
  | _ => v
  end.

(** ** Strings *)

(** [String.prototype.toLowerCase] on the letters A to Z; every other byte
    is kept. The program only searches the result for the ASCII word
    [trapillo], and no character outside ASCII has a lower case that could
    take part in a match: the lower case of such a character is outside
    ASCII too, but for U+212A, which gives [k], a letter the word does not
    have, and U+0130, which gives [i] followed by U+0307, where the word
    has [l] after its [i]. *)
Definition lower_ascii (c : ascii) : ascii :=
  let n := nat_of_ascii c in
  if ((65 <=? n)%nat && (n <=? 90)%nat)%bool then ascii_of_nat (n + 32) else c.

Fixpoint toLowerCase (s : string) : string :=
  match s with
  | EmptyString => EmptyString
  | String c s' => String (lower_ascii c) (toLowerCase s')
  end.

(** [s.includes(needle)]. *)
Fixpoint includes (needle s : string) : bool :=
  String.prefix needle s ||
  match s with
  | EmptyString => false
  | String _ s' => includes needle s'
  end.

(** ** Errors, requests and events *)

Inductive exn : Type :=
| Error_HTTP (status : Z) (statusText : option string)
    (* [new Error(`HTTP ${status}`)], with [: ${statusText}] in [getAll] *)
| TypeError (msg : string)
| SyntaxError               (* [response.json()] on a body that is not JSON *)
| NetworkError (msg : string). (* [fetch] rejected *)

Inductive http_method : Type := GET | POST | PUT | DELETE.

(** The arguments of one [fetch] call. [body] is the value handed to
    [JSON.stringify]; [timeout] is the option [getAll] passes, which
    [fetch] ignores. *)
Record request : Type := mkRequest {
  req_method : http_method;
  req_url : string;
  req_headers : list (string * string);
  req_body : option value;
  req_timeout : option Z
}.

(** A response: [json] is [None] when the body does not parse. *)
Record response : Type := mkResponse {
  status : Z;
  statusText : string;
  json : option value
}.

(** [response.ok]. *)
Definition ok (r : response) : bool := (200 <=? status r) && (status r <=? 299).

Inductive fetch_result : Type :=
| Rejected (e : exn)
| Responded (r : response).

Inductive level : Type := LogError | LogWarn.

Inductive event : Type :=
| EvFetch (req : request) (res : fetch_result)
| EvSleep (ms : Z)                                  (* [setTimeout(resolve, ms)] awaited *)
| EvConsole (lvl : level) (msg : string) (e : option exn).
    (* [console.error(msg, e)] / [console.warn(msg)] *)

(** ** The global state *)

Record AppState : Type := mkAppState {
  menuItems : value;
  orders : value;
  transactions : value;
  waiters : value;
  config : value;
  cashClosures : value;
  isOnline : bool
}.

Record World : Type := mkWorld {
  app : AppState;
  trace : list event;   (* oldest first *)
  ids : nat             (* identifiers drawn so far *)
}.

Definition initial_AppState (online : bool) : AppState :=
  mkAppState empty_array empty_array empty_array empty_array
             empty_object empty_array online.

(** ** Computations *)

Definition M (A : Type) : Type := World → World * (exn + A).

Definition ret {A} (a : A) : M A := fun w => (w, inr a).
Definition throw {A} (e : exn) : M A := fun w => (w, inl e).

Definition bind {A B} (m : M A) (k : A → M B) : M B :=
  fun w =>
    match m w with
    | (w', inr a) => k a w'
    | (w', inl e) => (w', inl e)
    end.

(** [try { m } catch (error) { h error }]. *)
Definition try_catch {A} (m : M A) (h : exn → M A) : M A :=
  fun w =>
    match m w with
    | (w', inl e) => h e w'
    | r => r
    end.

Notation "'let*' x ':=' m 'in' k" := (bind m (fun x => k))
  (at level 10, x name, m at level 100, k at level 200).
Notation "m ';;' k" := (bind m (fun _ => k))
  (at level 100, k at level 200, right associativity).

Definition emit (e : event) : M unit :=
  fun w => (mkWorld (app w) (trace w ++ [e]) (ids w), inr tt).

Definition lift {A} (r : exn + A) : M A := fun w => (w, r).

Definition get_app : M AppState := fun w => (w, inr (app w)).

Definition modify_app (f : AppState → AppState) : M unit :=
  fun w => (mkWorld (f (app w)) (trace w) (ids w), inr tt).

(** [AppState.menuItems = v], and so on for the other fields. *)
Definition with_menuItems (v : value) (s : AppState) : AppState :=
  mkAppState v (orders s) (transactions s) (waiters s)
             (config s) (cashClosures s) (isOnline s).
Definition with_orders (v : value) (s : AppState) : AppState :=
  mkAppState (menuItems s) v (transactions s) (waiters s)
             (config s) (cashClosures s) (isOnline s).
Definition with_transactions (v : value) (s : AppState) : AppState :=
  mkAppState (menuItems s) (orders s) v (waiters s)
             (config s) (cashClosures s) (isOnline s).
Definition with_waiters (v : value) (s : AppState) : AppState :=
  mkAppState (menuItems s) (orders s) (transactions s) v
             (config s) (cashClosures s) (isOnline s).
Definition with_config (v : value) (s : AppState) : AppState :=
  mkAppState (menuItems s) (orders s) (transactions s) (waiters s)
             v (cashClosures s) (isOnline s).
Definition with_cashClosures (v : value) (s : AppState) : AppState :=
  mkAppState (menuItems s) (orders s) (transactions s) (waiters s)
             (config s) v (isOnline s).

Definition set_menuItems (v : value) : M unit := modify_app (with_menuItems v).
Definition set_orders (v : value) : M unit := modify_app (with_orders v).
Definition set_transactions (v : value) : M unit :=
  modify_app (with_transactions v).
Definition set_waiters (v : value) : M unit := modify_app (with_waiters v).
Definition set_config (v : value) : M unit := modify_app (with_config v).
Definition set_cashClosures (v : value) : M unit :=
  modify_app (with_cashClosures v).

Definition console_error (msg : string) (e : exn) : M unit :=
  emit (EvConsole LogError msg (Some e)).
Definition console_warn (msg : string) : M unit :=
  emit (EvConsole LogWarn msg None).

(** [await new Promise(resolve => setTimeout(resolve, ms))]. *)
Definition sleep (ms : Z) : M unit := emit (EvSleep ms).

Definition API_URL : string :=
  "https://tribunal-strong-flags-testing.trycloudflare.com/api".
Definition APP_TIMEZONE : string := "America/Bogota".

(** ** The migration of one menu item

    The body of the callback of [AppState.menuItems.forEach] in
    [initializeDefaultData]. It updates [item] in place and raises the
    flag [needsUpdate]; the third component is the error that interrupted
    it, if any. The item and the flag are returned as they stand at that
    point, since the updates made before a throw persist. *)
Definition migrate_item (item : value) (needsUpdate : bool)
  : value * bool * option exn :=
  if nullish item
  then (item, needsUpdate,
        Some (TypeError "Cannot read properties of null (reading 'cost')"))
  else
  (* Migración: Añadir campo cost a productos existentes que no lo tengan *)
  let '(item, needsUpdate) :=
    if is_undefined (get_prop item "cost")
    then (set_prop item "cost" (VNum 0), true)
    else (item, needsUpdate) in
  (* Migración: Convertir img único a array images *)
  let '(item, needsUpdate) :=
    if truthy (get_prop item "img") && negb (truthy (get_prop item "images"))
    then (delete_prop
            (set_prop item "images" (VArr [get_prop item "img"] ∅)) "img",
          true)
    else (item, needsUpdate) in
  (* Asegurar que images sea un array (por si acaso) *)
  let '(item, needsUpdate) :=
    if negb (truthy (get_prop item "images"))
       || negb (isArray (get_prop item "images"))
    then (set_prop item "images" empty_array, true)
    else (item, needsUpdate) in
  (* Migración: Renombrar categorías *)
  let '(item, needsUpdate) :=
    if is_string "Cuero Artesanal" (get_prop item "category")
    then (set_prop item "category" (VStr "Cuero"), true)
    else (item, needsUpdate) in
  let category := get_prop item "category" in
  if truthy category
  then
    match category with
    | VStr s =>
        if includes "trapillo" (toLowerCase s)
        then (set_prop item "category" (VStr "Tejidos Crochet"), true, None)
        else (item, needsUpdate, None)
    | _ =>
        (item, needsUpdate,
         Some (TypeError "item.category.toLowerCase is not a function"))
    end
  else (item, needsUpdate, None).

(** [items.forEach(item => ...)] with the callback above: the items are
    visited in order, and a throw leaves the later ones unvisited. *)
Fixpoint forEach_migrate (items : list value) (needsUpdate : bool)
  : list value * bool * option exn :=
  match items with
  | [] => ([], needsUpdate, None)
  | item :: rest =>
      match migrate_item item needsUpdate with
      | (item', needsUpdate', Some e) => (item' :: rest, needsUpdate', Some e)
      | (item', needsUpdate', None) =>
          let '(rest', needsUpdate'', thrown) :=
            forEach_migrate rest needsUpdate' in
          (item' :: rest', needsUpdate'', thrown)
      end
  end.

(** The example records of [initializeDefaultData]. *)
Definition default_menu_items (id1 id2 id3 : value) : value :=
  VArr [
    object_of [
      ("id", id1);
      ("name", VStr "Bolso Macramé Crudo");
      ("description", VStr "Bolso tejido a mano en hilo de algodón color crudo. Diseño elegante y espacioso.");
      ("cost", VNum 45000);
      ("price", VNum 85000);
      ("category", VStr "Macramé");
      ("image", VStr "https://lh3.googleusercontent.com/aida-public/AB6AXuBk6smYy2Mm-f3m_jaZGjaNaTiCZk7WJoDuXJ2XvpQdVBqjbxeHZBapk_oryfTLJ_p3b0JBfZPYOh_vaiaa1kTS2QbuTlv8ZU53vJAftgMuP2RaKvPxvey4jmui8MtvGY2ubBrC1yvcbBoQx4uXHx47VbaLRfhQt42kq8jQTmyNkPDuGhjMYDWFIiygY9badWq5eGbfCeJUOMyqUaJTdUXDag9CIvqI35s6uGg9xciuIZccIxrN1j1YVvBC4FYScSLtAH502Y5jDmc");
      ("available", VBool true)
    ];
    object_of [
      ("id", id2);
      ("name", VStr "Cartera Zuncho Colorida");
      ("description", VStr "Cartera resistente tejida en zuncho con patrones geométricos vibrantes.");
      ("cost", VNum 35000);
      ("price", VNum 65000);
      ("category", VStr "Bolsos en Zuncho");
      ("image", VStr "zuncho_artesanal.png");
      ("available", VBool true)
    ];
    object_of [
      ("id", id3);
      ("name", VStr "Cesta Organizadora");
      ("description", VStr "Cesta tejida en trapillo ideal para organizar espacios con estilo.");
      ("cost", VNum 25000);
      ("price", VNum 45000);
      ("category", VStr "Tejidos Crochet");
      ("image", VStr "https://lh3.googleusercontent.com/aida-public/AB6AXuBBb22GOqiBV3DeTE7F8-8QgWOmKaEbZVPAUkwa1czfqVAN6wcTs7nDkuPXcNxPUhKZ5EhCdubA4EXwfnzccyYH2Vgn9cGljielLhFylJDi_m51lnyIxlWkVgpxdjGWyLjFSL1IAa0PwmRzEJDR8y5r8_BvC6QvJtH5Rz7z4ZtXgG8qK_l8J3bJ4Z5yL9XwQ9zH3jK5nM2P4rT8qVw6xY7uZ9aO1bC3dE5fG7hI9jL0mK2nO4pQ6sR8tU9vW1xY3zA5bC7d9eF1gH3jI5kL7mN9oP2rS");
      ("available", VBool true)
    ]
  ] ∅.

Definition default_waiters (id1 id2 : value) : value :=
  VArr [
    object_of [("id", id1); ("name", VStr "Juan Pérez"); ("active", VBool true)];
    object_of [("id", id2); ("name", VStr "María García"); ("active", VBool true)]
  ] ∅.

(** ** [API] *)

Module API.
Section Server.

(** The network and the server behind it: the answer to a request may
    depend on everything that happened before it. *)
Variable respond : list event → request → fetch_result.

(** [await fetch(url, options)]. *)
Definition fetch (req : request) : M response :=
  fun w =>
    let res := respond (trace w) req in
    let w' := mkWorld (app w) (trace w ++ [EvFetch req res]) (ids w) in
    match res with
    | Rejected e => (w', inl e)
    | Responded r => (w', inr r)
    end.

(** [await response.json()]. *)
Definition response_json (r : response) : M value :=
  match json r with
  | Some v => ret v
  | None => throw SyntaxError
  end.

Definition json_headers : list (string * string) :=
  [("Content-Type", "application/json")].

Definition getAll_request (table : string) : request :=
  mkRequest GET (API_URL +:+ "/" +:+ table) [] None (Some 10000).
Definition save_request (table : string) (items : value) : request :=
  mkRequest POST (API_URL +:+ "/" +:+ table) json_headers (Some items) None.
Definition update_request (table id : string) (item : value) : request :=
  mkRequest PUT (API_URL +:+ "/" +:+ table +:+ "/" +:+ id) json_headers
            (Some item) None.
Definition delete_request (table id : string) : request :=
  mkRequest DELETE (API_URL +:+ "/" +:+ table +:+ "/" +:+ id) [] None None.

Definition getAll (table : string) : M value :=
  try_catch
    (let* response := fetch (getAll_request table) in
     if negb (ok response)
     then throw (Error_HTTP (status response) (Some (statusText response)))
     else
       let* data := response_json response in
       ret data)
    (fun error =>
       console_error ("Error obteniendo " +:+ table +:+ ":") error ;;
       throw error).

(** The text [save] logs when it gives up. *)
Definition save_failed_message (table : string) (retries : Z) : string :=
  "Error guardando " +:+ table +:+ " después de "
  +:+ pretty (retries + 1) +:+ " intentos:".

(** How one turn of the loop of [save] ends: with the [return] of the
    [try] block, or by falling through to the next turn. *)
Inductive completion : Type :=
| Return (v : value)
| Continue.

(** The [for] loop of [save] from counter [i], with [n] turns left: the
    test [i <= retries] holds exactly when [n] is not zero. *)
Fixpoint save_loop (table : string) (items : value) (retries : Z)
    (n : nat) (i : Z) : M value :=
  match n with
  | O => ret VUndef
  | S n' =>
      let* c :=
        try_catch
          (let* response := fetch (save_request table items) in
           if negb (ok response)
           then throw (Error_HTTP (status response) None)
           else
             let* v := response_json response in
             ret (Return v))
          (fun error =>
             if i =? retries
             then
               console_error (save_failed_message table retries) error ;;
               throw error
             else
               sleep (500 * (i + 1)) ;;
               ret Continue) in
      match c with
      | Return v => ret v
      | Continue => save_loop table items retries n' (i + 1)
      end
  end.

Definition save (table : string) (items : value) (retries : Z) : M value :=
  save_loop table items retries (Z.to_nat (retries + 1)) 0.

Definition update (table id : string) (item : value) : M value :=
  try_catch
    (let* response := fetch (update_request table id item) in
     if negb (ok response)
     then throw (Error_HTTP (status response) None)
     else response_json response)
    (fun error =>
       console_error ("Error actualizando " +:+ table +:+ "/" +:+ id +:+ ":")
                     error ;;
       throw error).

Definition delete (table id : string) : M value :=
  try_catch
    (let* response := fetch (delete_request table id) in
     if negb (ok response)
     then throw (Error_HTTP (status response) None)
     else response_json response)
    (fun error =>
       console_error ("Error eliminando " +:+ table +:+ "/" +:+ id +:+ ":")
                     error ;;
       throw error).

End Server.
End API.

(** ** [Intl.DateTimeFormat]

    [Intl.DateTimeFormat] is the platform's. What the program decides is
    the options it passes; the platform fills a missing [timeZone] with
    the time zone of the machine and formats the instant with the options
    so resolved. *)

(** What the platform supplies without being asked. *)
Record Ambient : Type := mkAmbient {
  systemTimeZone : string;   (* the local time zone *)
  now : Z                    (* [new Date()], in milliseconds *)
}.

Record DateTimeFormatOptions : Type := mkOptions {
  opt_timeZone : option string;
  opt_year : option string;
  opt_month : option string;
  opt_day : option string;
  opt_hour : option string;
  opt_minute : option string
}.

(** The options after [new Intl.DateTimeFormat(locale, options)] has
    resolved the time zone. *)
Record ResolvedOptions : Type := mkResolved {
  timeZone : string;
  fields : DateTimeFormatOptions
}.

Definition resolveOptions (amb : Ambient) (options : DateTimeFormatOptions)
  : ResolvedOptions :=
  mkResolved (default (systemTimeZone amb) (opt_timeZone options)) options.

Section Intl.

(** The text the platform produces for a locale, resolved options and an
    instant, or the [RangeError] it throws. *)
Variable format_instant : string → ResolvedOptions → Z → exn + string.

(** [new Intl.DateTimeFormat(locale, options).format(date)]. *)
Definition DateTimeFormat_format (amb : Ambient) (locale : string)
    (options : DateTimeFormatOptions) (date : Z) : exn + string :=
  format_instant locale (resolveOptions amb options) date.

End Intl.

(** ** [Utils] *)

Module Utils.
Section Platform.

(** The [n]-th string returned by [generateId], which draws on the clock
    and on [Math.random]. *)
Variable generateId_at : nat → string.

Variable format_instant : string → ResolvedOptions → Z → exn + string.

Definition generateId : M value :=
  fun w => (mkWorld (app w) (trace w) (S (ids w)),
            inr (VStr (generateId_at (ids w)))).

(** [formatDate(date)] on a timestamp: no time zone is passed. *)
Definition formatDate (amb : Ambient) (date : Z) : exn + string :=
  DateTimeFormat_format format_instant amb "es-MX"
    (mkOptions None (Some "numeric") (Some "2-digit") (Some "2-digit")
               (Some "2-digit") (Some "2-digit"))
    date.

(** [getDateKey(date = new Date(), timeZone = APP_TIMEZONE)]: an argument
    is [None] when it is left out or [undefined]. *)
Definition getDateKey (amb : Ambient) (date : option Z)
    (timeZone : option string) : exn + string :=
  let date := default (now amb) date in
  let timeZone := default APP_TIMEZONE timeZone in
  DateTimeFormat_format format_instant amb "en-CA"
    (mkOptions (Some timeZone) (Some "numeric") (Some "2-digit")
               (Some "2-digit") None None)
    date.

(** The parts [formatToParts] produces for a locale, resolved options and
    an instant, each with its type and its text. *)
Variable formatToParts :
  string → ResolvedOptions → Z → exn + list (string * string).

(** [parts.find(p => p.type === type)?.value || fallback]. *)
Definition part_or (type fallback : string) (parts : list (string * string))
  : string :=
  match List.find (fun p => String.eqb p.1 type) parts with
  | Some p => if String.eqb p.2 "" then fallback else p.2
  | None => fallback
  end.

(** [getMonthKey(date = new Date(), timeZone = APP_TIMEZONE)]. *)
Definition getMonthKey (amb : Ambient) (date : option Z)
    (timeZone : option string) : exn + string :=
  let date := default (now amb) date in
  let timeZone := default APP_TIMEZONE timeZone in
  match formatToParts "en-CA"
          (resolveOptions amb
             (mkOptions (Some timeZone) (Some "numeric") (Some "2-digit")
                        None None None))
          date with
  | inl e => inl e
  | inr parts =>
      inr (part_or "year" "0000" parts +:+ "-" +:+ part_or "month" "01" parts)
  end.

End Platform.
End Utils.

(** ** [Storage]

    [localStorage] maps keys to texts. [JSON.stringify], [JSON.parse] and
    the quota of the store are the platform's. *)
Module Storage.
Section Platform.

(** [JSON.stringify(v)]: a text, or [None] where it returns [undefined]
    (for [undefined] itself), or the error it throws. *)
Variable JSON_stringify : value → exn + option string.

(** [JSON.parse(text)]. *)
Variable JSON_parse : string → exn + value.

(** The error [setItem] throws when the store would not take the entry. *)
Variable setItem_error :
  gmap string string → string → string → option exn.

(** [localStorage.setItem(key, data)] writes the text of [data]: the
    word [undefined] when [data] is [undefined]. *)
Definition setItem (key : string) (data : option string)
    (store : gmap string string) : exn + gmap string string :=
  let text := default "undefined" data in
  match setItem_error store key text with
  | Some e => inl e
  | None => inr (<[key := text]> store)
  end.

(** [Storage.get(key)]: [data ? JSON.parse(data) : null], where
    [getItem] gives [null] for a missing key. *)
Definition get (key : string) (store : gmap string string) : exn + value :=
  match store !! key with
  | Some data => if String.eqb data "" then inr VNull else JSON_parse data
  | None => inr VNull
  end.

(** [Storage.set(key, value)]. *)
Definition set (key : string) (v : value) (store : gmap string string)
  : exn + gmap string string :=
  match JSON_stringify v with
  | inl e => inl e
  | inr data => setItem key data store
  end.

(** [Storage.remove(key)]. *)
Definition remove (key : string) (store : gmap string string)
  : gmap string string :=
  delete key store.

End Platform.
End Storage.

(** ** The bootstrap routines *)

Section Bootstrap.

Variable respond : list event → request → fetch_result.
Variable generateId_at : nat → string.

(** *** [loadInitialData] *)

(** Whether [ToNumber(v) > 0] for a string, an array or an object [v]: the
    coercion of such values to numbers is the engine's. *)
Variable ToNumber_positive : value → exn + bool.

(** [v > 0]. *)
Definition gt_zero (v : value) : exn + bool :=
  match v with
  | VUndef | VNull => inr false
  | VBool b => inr b
  | VNum n => inr (0 <? n)
  | _ => ToNumber_positive v
  end.

(** [v[0]] on a value that is neither [null] nor [undefined]. *)
Definition get_index0 (v : value) : value :=
  match v with
  | VArr l _ => default VUndef (l !! 0%nat)
  | VObj o => default VUndef (o !! "0")
  | VStr (String c _) => VStr (String c EmptyString)
  | _ => VUndef
  end.

(** [v.length], which throws on [null] and [undefined]. *)
Definition length_of (v : value) : M value :=
  if nullish v
  then throw (TypeError "Cannot read properties of null (reading 'length')")
  else ret (get_prop v "length").

(** [configArray.length > 0 ? configArray[0] : {}]. *)
Definition first_or_empty (configArray : value) : M value :=
  let* len := length_of configArray in
  let* positive := lift (gt_zero len) in
  if positive : bool then ret (get_index0 configArray) else ret empty_object.

Definition loadInitialData : M unit :=
  try_catch
    (let* v := API.getAll respond "menu_items" in set_menuItems v ;;
     let* v := API.getAll respond "orders" in set_orders v ;;
     let* v := API.getAll respond "transactions" in set_transactions v ;;
     let* v := API.getAll respond "waiters" in set_waiters v ;;
     try_catch
       (let* v := API.getAll respond "cash_closures" in set_cashClosures v)
       (fun err =>
          console_warn "⚠️ Tabla cash_closures no disponible en el servidor" ;;
          set_cashClosures empty_array) ;;
     let* configArray := API.getAll respond "config" in
     let* c := first_or_empty configArray in
     set_config c)
    (fun error =>
       console_error "Error cargando datos iniciales:" error ;;
       throw error).

(** *** [initializeDefaultData] *)

(** The first statement of [initializeDefaultData]: the menu is seeded
    when it is empty, and migrated otherwise. *)
Definition initializeMenuItems : M unit :=
  let* s := get_app in
  let* len := length_of (menuItems s) in
  if is_zero len
  then
    (* Si no hay datos, cargar ejemplos iniciales *)
    let* id1 := Utils.generateId generateId_at in
    let* id2 := Utils.generateId generateId_at in
    let* id3 := Utils.generateId generateId_at in
    set_menuItems (default_menu_items id1 id2 id3) ;;
    let* s := get_app in
    API.save respond "menu_items" (menuItems s) 2 ;;
    ret tt
  else
    match menuItems s with
    | VArr items extra =>
        let '(items', needsUpdate, thrown) := forEach_migrate items false in
        set_menuItems (VArr items' extra) ;;
        match thrown with
        | Some e => throw e
        | None =>
            if needsUpdate
            then
              let* s := get_app in
              API.save respond "menu_items" (menuItems s) 2 ;;
              ret tt
            else ret tt
        end
    | _ => throw (TypeError "AppState.menuItems.forEach is not a function")
    end.

(** Its second statement: two waiters are installed when there is none. *)
Definition initializeWaiters : M unit :=
  let* s := get_app in
  let* len := length_of (waiters s) in
  if is_zero len
  then
    let* id1 := Utils.generateId generateId_at in
    let* id2 := Utils.generateId generateId_at in
    set_waiters (default_waiters id1 id2) ;;
    let* s := get_app in
    API.save respond "waiters" (waiters s) 2 ;;
    ret tt
  else ret tt.

Definition initializeDefaultData : M unit :=
  initializeMenuItems ;;
  initializeWaiters.


End Bootstrap.

(** ** Vocabulary of the properties *)

(** The world after the events [evs] were observed. *)
Definition after (w : World) (evs : list event) : World :=
  mkWorld (app w) (trace w ++ evs) (ids w).

(** What the [try] block of [getAll] makes of an answer. *)
Definition getAll_outcome (res : fetch_result) : exn + value :=
  match res with
  | Rejected e => inl e
  | Responded r =>
      if ok r
      then match json r with Some v => inr v | None => inl SyntaxError end
      else inl (Error_HTTP (status r) (Some (statusText r)))
  end.

(** What the [try] blocks of [save], [update] and [delete] make of one. *)
Definition write_outcome (res : fetch_result) : exn + value :=
  match res with
  | Rejected e => inl e
  | Responded r =>
      if ok r
      then match json r with Some v => inr v | None => inl SyntaxError end
      else inl (Error_HTTP (status r) None)
  end.

(** The requests among some events. *)
Definition requests (evs : list event) : list request :=
  omap (fun ev => match ev with EvFetch req _ => Some req | _ => None end) evs.

(** The world after the answer [res] to the read of [table] was received
    and [AppState] was updated by [f]. *)
Definition fetched (table : string) (res : fetch_result)
    (f : AppState → AppState) (w : World) : World :=
  mkWorld (f (app w))
          (trace w ++ [EvFetch (API.getAll_request table) res]) (ids w).

(** The endpoint of [table] always answers a read with the body [v]. *)
Definition serves (respond : list event → request → fetch_result)
    (table : string) (v : value) : Prop :=
  ∀ history,
    getAll_outcome (respond history (API.getAll_request table)) = inr v.

(** The endpoint of [table] never answers a read successfully: it cannot
    be reached, or answers with an error status or an unreadable body. *)
Definition fails (respond : list event → request → fetch_result)
    (table : string) : Prop :=
  ∀ history, ∃ e,
    getAll_outcome (respond history (API.getAll_request table)) = inl e.

(** A value that can hold properties. *)
Definition is_object (v : value) : bool :=
  match v with VObj _ | VArr _ _ => true | _ => false end.

(** [item] has an own property [k]. *)
Definition has_prop (v : value) (k : string) : bool :=
  match v with
  | VObj o => bool_decide (is_Some (o !! k))
  | VArr _ e => bool_decide (is_Some (e !! k))
  | _ => false
  end.

(** The record is in the legacy shape: a truthy [img], no usable [images]. *)
Definition legacy_image (item : value) : bool :=
  truthy (get_prop item "img") && negb (truthy (get_prop item "images")).

(** The fields of an object after [migrate_item], read off the object
    before it. *)
Definition migrated_cost (item : value) : value :=
  if is_undefined (get_prop item "cost") then VNum 0 else get_prop item "cost".

Definition migrated_images (item : value) : value :=
  if legacy_image item then VArr [get_prop item "img"] ∅
  else if negb (truthy (get_prop item "images"))
          || negb (isArray (get_prop item "images"))
       then empty_array
       else get_prop item "images".

Definition migrated_category (item : value) : value :=
  match get_prop item "category" with
  | VStr s =>
      if String.eqb s "Cuero Artesanal" then VStr "Cuero"
      else if includes "trapillo" (toLowerCase s) then VStr "Tejidos Crochet"
      else VStr s
  | c => c
  end.

(** The callback of the migration runs to its end on [item]: the item is
    neither [null] nor [undefined], and its category is a string or is
    falsy, so that [toLowerCase] is only ever called on a string. *)
Definition migrates (item : value) : bool :=
  negb (nullish item) &&
  match get_prop item "category" with
  | VStr _ => true
  | c => negb (truthy c)
  end.

(** [ev] is a save that the server acknowledged: a [POST] answered with a
    success status and a body that parses. *)
Definition is_write (ev : event) : bool :=
  match ev with
  | EvFetch (mkRequest POST _ _ _ _) res =>
      match write_outcome res with inr _ => true | inl _ => false end
  | _ => false
  end.

Definition is_write_to (table : string) (ev : event) : bool :=
  is_write ev &&
  match ev with
  | EvFetch req _ => String.eqb (req_url req) (API_URL +:+ "/" +:+ table)
  | _ => false
  end.

(** The number of acknowledged saves among some events. *)
Definition writes (evs : list event) : nat :=
  List.length (List.filter is_write evs).

Definition writes_to (table : string) (evs : list event) : nat :=
  List.length (List.filter (is_write_to table) evs).

(** The elements of [AppState.menuItems]. *)
Definition menu_of (w : World) : list value :=
  match menuItems (app w) with
  | VArr items _ => items
  | _ => []
  end.

(** [item] is in the current shape: the callback of the migration finds
    nothing to change in it. *)
Definition migrated (item : value) : bool :=
  negb (is_undefined (get_prop item "cost"))
  && isArray (get_prop item "images")
  && match get_prop item "category" with
     | VStr s =>
         negb (String.eqb s "Cuero Artesanal")
         && negb (includes "trapillo" (toLowerCase s))
     | c => negb (truthy c)
     end.

(** The events a computation adds to the log of [w]. *)
Definition events_of {A} (m : M A) (w : World) : list event :=
  drop (List.length (trace w)) (trace (fst (m w))).

(** ** The migration properties, as predicates on one record

    [item] is the record at index [i] of the menu of [w], before
    [initializeDefaultData] runs against the server [respond]. *)
Section Outcomes.

Variable respond : list event → request → fetch_result.
Variable generateId_at : nat → string.

(** The record ends with its category renamed: ["Cuero Artesanal"] to
    ["Cuero"], anything that contains [trapillo] in some casing to
    ["Tejidos Crochet"], and any other category as it was. *)
Definition category_renamed (w : World) (i : nat) (item : value) : Prop :=
  ∃ item',
    menu_of (initializeDefaultData respond generateId_at w).1 !! i = Some item'
    ∧ (get_prop item "category" = VStr "Cuero Artesanal" →
       get_prop item' "category" = VStr "Cuero")
    ∧ (∀ s, get_prop item "category" = VStr s →
            includes "trapillo" (toLowerCase s) = true →
            get_prop item' "category" = VStr "Tejidos Crochet")
    ∧ (get_prop item "category" ≠ VStr "Cuero Artesanal" →
       (∀ s, get_prop item "category" = VStr s →
             includes "trapillo" (toLowerCase s) = false) →
       get_prop item' "category" = get_prop item "category").

(** The record ends with a one-element image list that holds its former
    [img], and without an [img] property. *)
Definition image_migrated (w : World) (i : nat) (item : value) : Prop :=
  ∃ item',
    menu_of (initializeDefaultData respond generateId_at w).1 !! i = Some item'
    ∧ get_prop item' "images" = VArr [get_prop item "img"] ∅
    ∧ has_prop item' "img" = false.

(** The record ends with the empty list as its [images]. *)
Definition images_reset (w : World) (i : nat) (item : value) : Prop :=
  ∃ item',
    menu_of (initializeDefaultData respond generateId_at w).1 !! i = Some item'
    ∧ get_prop item' "images" = empty_array.

(** The record ends with an array as its [images]: the one-element list of
    its [img] if it was in the legacy shape, the empty list if its
    [images] was otherwise not an array; and with a defined [cost]. *)
Definition images_normalized (w : World) (i : nat) (item : value) : Prop :=
  ∃ item',
    menu_of (initializeDefaultData respond generateId_at w).1 !! i = Some item'
    ∧ (isArray (get_prop item "images") = false →
       get_prop item' "images" =
         if legacy_image item then VArr [get_prop item "img"] ∅
         else empty_array)
    ∧ isArray (get_prop item' "images") = true
    ∧ is_undefined (get_prop item' "cost") = false.

(** Two calls in succession from [w] make at most one acknowledged save
    in all, and the second call makes none. *)
Definition idempotent_from (w : World) : Prop :=
  let first := initializeDefaultData respond generateId_at in
  let w1 := (first w).1 in
  (writes (events_of first w) + writes (events_of first w1) ≤ 1)%nat
  ∧ writes (events_of first w1) = 0%nat.

End Outcomes.

(** ** Sample servers and worlds *)

(** A fresh page: the initial [AppState], nothing observed yet. *)
Definition fresh_world : World := mkWorld (initial_AppState true) [] 0.

(** A server that answers every request with [404 Not Found]. *)
Definition respond_not_found : list event → request → fetch_result :=
  fun _ _ => Responded (mkResponse 404 "Not Found" None).

(** A server that cannot be reached for its first [k] requests and then
    acknowledges every request with the body [null]. *)
Definition respond_after (k : nat) : list event → request → fetch_result :=
  fun history _ =>
    if (List.length (requests history) <? k)%nat
    then Rejected (NetworkError "Failed to fetch")
    else Responded (mkResponse 200 "OK" (Some VNull)).

(** A server with every table empty but [config], which holds [cfg]; the
    endpoint of the table [down] cannot be reached. It acknowledges every
    write with the body [null]. *)
Definition sample_backend (down : string) (cfg : list value)
  : list event → request → fetch_result :=
  fun _ req =>
    if String.eqb (req_url req) (API_URL +:+ "/" +:+ down)
    then Rejected (NetworkError "Failed to fetch")
    else
      match req_method req with
      | GET =>
          if String.eqb (req_url req) (API_URL +:+ "/config")
          then Responded (mkResponse 200 "OK" (Some (VArr cfg ∅)))
          else Responded (mkResponse 200 "OK" (Some empty_array))
      | _ => Responded (mkResponse 200 "OK" (Some VNull))
      end.

Definition sample_ids (n : nat) : string := "id" +:+ pretty n.

(** A page whose menu is the array of [items]; two waiters are present. *)
Definition world_with_menu (items : list value) : World :=
  mkWorld
    (mkAppState (VArr items ∅) empty_array empty_array
       (default_waiters (VStr "w1") (VStr "w2")) empty_object empty_array true)
    [] 0.

(** A menu whose first record has a number as its category. *)
Definition menu_with_numeric_category : list value :=
  [ object_of [("name", VStr "Llavero"); ("category", VNum 5)];
    object_of [("name", VStr "Cinturón");
               ("category", VStr "Cuero Artesanal")] ].

(** A menu whose first record has the empty string as [img], and whose
    second record has a number as its category. *)
Definition menu_with_legacy_images : list value :=
  [ object_of [("name", VStr "Monedero"); ("img", VStr "")];
    object_of [("name", VStr "Llavero"); ("category", VNum 5)];
    object_of [("name", VStr "Bolso"); ("img", VStr "bolso.png")] ].

(** A menu with a legacy record, then a record that has a number as its
    category, then a record whose [images] is a string. *)
Definition menu_with_odd_images : list value :=
  [ object_of [("name", VStr "Bolso"); ("img", VStr "bolso.png")];
    object_of [("name", VStr "Llavero"); ("category", VNum 5)];
    object_of [("name", VStr "Cesta"); ("images", VStr "cesta.png")] ].

(** The same menu on a page without waiters. *)
Definition world_without_waiters (items : list value) : World :=
  mkWorld
    (mkAppState (VArr items ∅) empty_array empty_array empty_array
                empty_object empty_array true)
    [] 0.

(** A menu in legacy shape that the migration handles to its end. *)
Definition menu_to_migrate : list value :=
  [ object_of [("name", VStr "Cinturón"); ("img", VStr "cinturon.png");
               ("category", VStr "Cuero Artesanal")];
    object_of [("name", VStr "Cesta"); ("cost", VNum 25000);
               ("images", VStr "cesta.png");
               ("category", VStr "Cestas de Trapillo")];
    object_of [("name", VStr "Bolso"); ("cost", VNum 45000);
               ("images", VArr [VStr "bolso.png"] ∅);
               ("category", VStr "Macramé")] ].

(** ** Further vocabulary *)

(** The pauses among some events. *)
Definition sleeps (evs : list event) : list Z :=
  omap (fun ev => match ev with EvSleep ms => Some ms | _ => None end) evs.

(** The entries of the console among some events. *)
Definition is_console (ev : event) : bool :=
  match ev with EvConsole _ _ _ => true | _ => false end.

Definition console_entries (evs : list event) : nat :=
  List.length (List.filter is_console evs).

(** The pauses of [save] after its first [k] failures: 500 ms, 1000 ms,
    and so on. *)
Definition backoff (k : nat) : list Z :=
  List.map (fun j => 500 * Z.of_nat j) (seq 1 k).

(** [pre] is what [k] failed attempts of [save] leave in the log, the
    first of them made with the loop counter at [i]: [k] times the same
    request, each answered by a failure and followed by its pause, and
    nothing else. *)
Definition failed_attempts (req : request) (i : Z) (k : nat)
    (pre : list event) : Prop :=
  requests pre = replicate k req
  ∧ sleeps pre = List.map (fun j => 500 * (i + Z.of_nat j)) (seq 1 k)
  ∧ writes pre = 0%nat
  ∧ console_entries pre = 0%nat
  ∧ List.length pre = (2 * k)%nat.

(** The answer is a failure of the transport rather than an error
    status: [fetch] rejected with [e], or the body of a successful answer
    does not parse and [e] is the [SyntaxError] of [response.json()]. *)
Definition transport_failure (res : fetch_result) (e : exn) : Prop :=
  res = Rejected e
  ∨ ∃ r, res = Responded r ∧ ok r = true ∧ json r = None ∧ e = SyntaxError.

(** A server that answers every request with a page that is not JSON. *)
Definition respond_not_json : list event → request → fetch_result :=
  fun _ _ => Responded (mkResponse 200 "OK" None).

(** The tables of the backend that [loadInitialData] reads. *)
Definition tables : list string :=
  ["menu_items"; "orders"; "transactions"; "waiters"; "cash_closures";
   "config"].

(** [ev] is something [loadInitialData] may do: read one of the tables,
    or write to the console. *)
Definition is_read (ev : event) : Prop :=
  match ev with
  | EvFetch req _ => ∃ table, table ∈ tables ∧ req = API.getAll_request table
  | EvConsole _ _ _ => True
  | EvSleep _ => False
  end.

(** [m] only adds events that satisfy [E] to the log, and takes a world
    to one that [R] relates to it. *)
Definition confined {A} (E : event → Prop) (R : World → World → Prop)
    (m : M A) : Prop :=
  ∀ w, ∃ evs,
    trace (m w).1 = (trace w ++ evs)%list ∧ Forall E evs ∧ R w (m w).1.

(** Neither the connectivity flag nor the count of identifiers changed. *)
Definition same_flag_and_ids (w w' : World) : Prop :=
  isOnline (app w') = isOnline (app w) ∧ ids w' = ids w.

(** A server with every table empty but [config], whose body is [null]. *)
Definition respond_null_config : list event → request → fetch_result :=
  fun _ req =>
    if String.eqb (req_url req) (API_URL +:+ "/config")
    then Responded (mkResponse 200 "OK" (Some VNull))
    else Responded (mkResponse 200 "OK" (Some empty_array)).

(** [v.length === 0] would hold, without a throw: what
    [initializeDefaultData] takes for an empty collection. *)
Definition has_zero_length (v : value) : bool :=
  negb (nullish v) && is_zero (get_prop v "length").

(** The example records with the identifiers drawn from the [n]-th on. *)
Definition seeded_menu (generateId_at : nat → string) (n : nat) : value :=
  default_menu_items (VStr (generateId_at n)) (VStr (generateId_at (S n)))
                     (VStr (generateId_at (S (S n)))).

Definition seeded_waiters (generateId_at : nat → string) (n : nat) : value :=
  default_waiters (VStr (generateId_at n)) (VStr (generateId_at (S n))).

(** Every save is acknowledged at once. *)
Definition acknowledges (respond : list event → request → fetch_result)
  : Prop :=
  ∀ history table items, ∃ v,
    write_outcome (respond history (API.save_request table items)) = inr v.

(** No save to [table] is ever acknowledged. *)
Definition refuses (respond : list event → request → fetch_result)
    (table : string) : Prop :=
  ∀ history items, ∃ e,
    write_outcome (respond history (API.save_request table items)) = inl e.

(** The fields that the migration assigns or deletes. *)
Definition migration_fields : list string :=
  ["cost"; "img"; "images"; "category"].

(** [item'] reads as [item] does at the field [k]. *)
Definition same_field (k : string) (item item' : value) : Prop :=
  get_prop item' k = get_prop item k ∧ has_prop item' k = has_prop item k.

(** [s'] differs from [s] in the menu and the waiters at most. *)
Definition same_but_menu_and_waiters (s s' : AppState) : Prop :=
  orders s' = orders s
  ∧ transactions s' = transactions s
  ∧ config s' = config s
  ∧ cashClosures s' = cashClosures s
  ∧ isOnline s' = isOnline s.

(** A parser and a printer for the texts [null] and whole numbers. *)
Definition sample_stringify (v : value) : exn + option string :=
  match v with
  | VUndef => inr None
  | VNum n => inr (Some (pretty n))
  | _ => inr (Some "null")
  end.

Definition sample_parse (text : string) : exn + value :=
  if String.eqb text "null" then inr VNull else inl SyntaxError.

(** A store without a quota. *)
Definition no_quota : gmap string string → string → string → option exn :=
  fun _ _ _ => None.

(** A formatter that gives the month before the year, as [en-CA] does
    not, and a literal in between. *)
Definition sample_parts
  : string → ResolvedOptions → Z → exn + list (string * string) :=
  fun _ _ _ => inr [("month", "11"); ("literal", "/"); ("year", "2026")].

(** * Properties *)

(** ** The model on small inputs *)

Example ok_is_200_to_299 :
  ok (mkResponse 200 "OK" None) = true
  ∧ ok (mkResponse 299 "" None) = true
  ∧ ok (mkResponse 199 "" None) = false
  ∧ ok (mkResponse 300 "Multiple Choices" None) = false
  ∧ ok (mkResponse 404 "Not Found" None) = false.
Proof. by repeat split. Qed.

Example trapillo_in_any_casing :
  includes "trapillo" (toLowerCase "Cestas de TRAPILLO") = true
  ∧ includes "trapillo" (toLowerCase "Trapillo XL") = true
  ∧ includes "trapillo" (toLowerCase "Tejidos Crochet") = false
  ∧ includes "trapillo" (toLowerCase "Cuero") = false.
Proof. by repeat split. Qed.

Example truthy_values :
  truthy (VStr "") = false ∧ truthy (VNum 0) = false
  ∧ truthy VNull = false ∧ truthy VUndef = false
  ∧ truthy empty_array = true ∧ truthy empty_object = true
  ∧ truthy (VStr "0") = true.
Proof. by repeat split. Qed.

(** A record in the legacy shape: every step of the callback applies. *)
Example migrate_item_legacy_record :
  migrate_item
    (object_of [("name", VStr "Cinturón"); ("img", VStr "cinturon.png");
                ("category", VStr "Cuero Artesanal")])
    false
  = (object_of [("name", VStr "Cinturón"); ("cost", VNum 0);
                ("images", VArr [VStr "cinturon.png"] ∅);
                ("category", VStr "Cuero")],
     true, None).
Proof. vm_compute. reflexivity. Qed.

(** A category that is a number: the first steps are made, then
    [toLowerCase] throws. *)
Example migrate_item_numeric_category :
  migrate_item (object_of [("name", VStr "Llavero"); ("category", VNum 5)])
               false
  = (object_of [("name", VStr "Llavero"); ("category", VNum 5);
                ("cost", VNum 0); ("images", empty_array)],
     true,
     Some (TypeError "item.category.toLowerCase is not a function")).
Proof. vm_compute. reflexivity. Qed.

(** A record in the current shape is returned as it is, flag included. *)
Example migrate_item_current_record :
  let item :=
    object_of [("name", VStr "Bolso"); ("cost", VNum 45000);
               ("images", VArr [VStr "bolso.png"] ∅);
               ("category", VStr "Macramé")] in
  migrate_item item false = (item, false, None).
Proof. vm_compute. reflexivity. Qed.

(** The example records of the seed carry [image], neither [img] nor
    [images]: the migration gives each of them an empty image list. *)
Example forEach_migrate_default_menu_items :
  match default_menu_items (VStr "a") (VStr "b") (VStr "c") with
  | VArr items _ =>
      (forEach_migrate items false).1.2 = true
      ∧ (forEach_migrate items false).2 = None
      ∧ Forall (fun item => get_prop item "images" = empty_array)
               (forEach_migrate items false).1.1
  | _ => False
  end.
Proof. vm_compute. repeat split; repeat constructor. Qed.

(** ** The API client *)

Section ClientFacts.

Variable respond : list event → request → fetch_result.

Lemma bind_inr {A B} (m : M A) (k : A → M B) w w' a :
  m w = (w', inr a) → bind m k w = k a w'.
Proof. intros H. unfold bind. by rewrite H. Qed.

Lemma bind_inl {A B} (m : M A) (k : A → M B) w w' e :
  m w = (w', inl e) → bind m k w = (w', inl e).
Proof. intros H. unfold bind. by rewrite H. Qed.

Lemma after_after w evs evs' : after (after w evs) evs' = after w (evs ++ evs').
Proof. unfold after. simpl. by rewrite app_assoc. Qed.

Lemma after_nil w : after w [] = w.
Proof. destruct w. unfold after. simpl. by rewrite app_nil_r. Qed.

(** One run of [getAll]: a single request, whose outcome is the result;
    a failure is logged once and thrown again. *)
Lemma getAll_run table w :
  let req := API.getAll_request table in
  let res := respond (trace w) req in
  API.getAll respond table w =
    match getAll_outcome res with
    | inr v => (after w [EvFetch req res], inr v)
    | inl e =>
        (after w [EvFetch req res;
                  EvConsole LogError ("Error obteniendo " +:+ table +:+ ":")
                            (Some e)],
         inl e)
    end.
Proof.
  intros req res.
  unfold API.getAll, try_catch, bind, API.fetch, API.response_json, getAll_outcome.
  fold req. fold res.
  destruct res as [e | r]; simpl.
  - unfold after. simpl. by rewrite <- app_assoc.
  - destruct (ok r); simpl.
    + destruct (json r); simpl; [done |].
      unfold after. simpl. by rewrite <- app_assoc.
    + unfold after. simpl. by rewrite <- app_assoc.
Qed.

Lemma update_run table id item w :
  let req := API.update_request table id item in
  let res := respond (trace w) req in
  API.update respond table id item w =
    match write_outcome res with
    | inr v => (after w [EvFetch req res], inr v)
    | inl e =>
        (after w [EvFetch req res;
                  EvConsole LogError
                    ("Error actualizando " +:+ table +:+ "/" +:+ id +:+ ":")
                    (Some e)],
         inl e)
    end.
Proof.
  intros req res.
  unfold API.update, try_catch, bind, API.fetch, API.response_json, write_outcome.
  fold req. fold res.
  destruct res as [e | r]; simpl.
  - unfold after. simpl. by rewrite <- app_assoc.
  - destruct (ok r); simpl.
    + destruct (json r); simpl; [done |].
      unfold after. simpl. by rewrite <- app_assoc.
    + unfold after. simpl. by rewrite <- app_assoc.
Qed.

Lemma delete_run table id w :
  let req := API.delete_request table id in
  let res := respond (trace w) req in
  API.delete respond table id w =
    match write_outcome res with
    | inr v => (after w [EvFetch req res], inr v)
    | inl e =>
        (after w [EvFetch req res;
                  EvConsole LogError
                    ("Error eliminando " +:+ table +:+ "/" +:+ id +:+ ":")
                    (Some e)],
         inl e)
    end.
Proof.
  intros req res.
  unfold API.delete, try_catch, bind, API.fetch, API.response_json, write_outcome.
  fold req. fold res.
  destruct res as [e | r]; simpl.
  - unfold after. simpl. by rewrite <- app_assoc.
  - destruct (ok r); simpl.
    + destruct (json r); simpl; [done |].
      unfold after. simpl. by rewrite <- app_assoc.
    + unfold after. simpl. by rewrite <- app_assoc.
Qed.

(** One turn of the loop of [save]. *)
Lemma save_loop_step table items retries n i w :
  let req := API.save_request table items in
  let res := respond (trace w) req in
  API.save_loop respond table items retries (S n) i w =
    match write_outcome res with
    | inr v => (after w [EvFetch req res], inr v)
    | inl e =>
        if i =? retries
        then (after w [EvFetch req res;
                       EvConsole LogError (API.save_failed_message table retries)
                                 (Some e)],
              inl e)
        else API.save_loop respond table items retries n (i + 1)
               (after w [EvFetch req res; EvSleep (500 * (i + 1))])
    end.
Proof.
  intros req res.
  cbn [API.save_loop]. unfold try_catch, bind, API.fetch, API.response_json, write_outcome.
  fold req. fold res.
  assert (Hlog : ∀ (ev1 ev2 : event),
    mkWorld (app w) ((trace w ++ [ev1]) ++ [ev2]) (ids w) = after w [ev1; ev2]).
  { intros. unfold after. by rewrite <- app_assoc. }
  destruct res as [e | r]; simpl.
  - destruct (i =? retries); simpl; by rewrite Hlog.
  - destruct (ok r); simpl.
    + destruct (json r); simpl; [done |].
      destruct (i =? retries); simpl; by rewrite Hlog.
    + destruct (i =? retries); simpl; by rewrite Hlog.
Qed.

Lemma requests_app evs evs' :
  requests (evs ++ evs') = (requests evs ++ requests evs')%list.
Proof. unfold requests. apply omap_app. Qed.

(** Against an endpoint that never acknowledges a save, the loop of
    [save] uses every turn it has left, one request per turn, and throws. *)
Lemma save_loop_persistent_failure table items retries n :
  (∀ history, ∃ e,
     write_outcome (respond history (API.save_request table items)) = inl e) →
  ∀ i w,
    Z.of_nat (S n) = retries + 1 - i →
    ∃ evs e,
      API.save_loop respond table items retries (S n) i w = (after w evs, inl e)
      ∧ List.length (requests evs) = S n.
Proof.
  intros Hdown. induction n as [| n IH]; intros i w Hturns;
    rewrite save_loop_step; cbv zeta;
    destruct (Hdown (trace w)) as [e He]; rewrite He.
  - replace (i =? retries) with true by (symmetry; apply Z.eqb_eq; lia).
    by eexists _, _.
  - replace (i =? retries) with false by (symmetry; apply Z.eqb_neq; lia).
    destruct (IH (i + 1)
                (after w [EvFetch (API.save_request table items)
                            (respond (trace w) (API.save_request table items));
                          EvSleep (500 * (i + 1))]))
      as (evs & e' & Hrun & Hcount); [lia |].
    rewrite Hrun, after_after. eexists _, _. split; [reflexivity |].
    rewrite requests_app, length_app. cbn. by rewrite Hcount.
Qed.

(** [save] tries [retries + 1] times in all before it gives up. *)
Lemma save_persistent_failure table items retries w :
  0 <= retries →
  (∀ history, ∃ e,
     write_outcome (respond history (API.save_request table items)) = inl e) →
  ∃ evs e,
    API.save respond table items retries w = (after w evs, inl e)
    ∧ Z.of_nat (List.length (requests evs)) = retries + 1.
Proof.
  intros Hretries Hdown. unfold API.save.
  destruct (Z.to_nat (retries + 1)) as [| n] eqn:Hn; [lia |].
  destruct (save_loop_persistent_failure table items retries n Hdown 0 w)
    as (evs & e & Hrun & Hcount); [lia |].
  exists evs, e. split; [exact Hrun |]. lia.
Qed.

(** C3 — For every table (and id and item where they apply) and every
    answer with a status outside 200..299, [getAll], [update] and [delete]
    each issue exactly one request, log the failure once and throw their
    error, [Error("HTTP <status>...")]: the events of the call are that one
    request and that one log entry, so nothing is retried. *)
Theorem getAll_update_delete_fail_once table id item w r :
  ok r = false →
  (respond (trace w) (API.getAll_request table) = Responded r →
   API.getAll respond table w =
     (after w [EvFetch (API.getAll_request table) (Responded r);
               EvConsole LogError ("Error obteniendo " +:+ table +:+ ":")
                 (Some (Error_HTTP (status r) (Some (statusText r))))],
      inl (Error_HTTP (status r) (Some (statusText r)))))
  ∧
  (respond (trace w) (API.update_request table id item) = Responded r →
   API.update respond table id item w =
     (after w [EvFetch (API.update_request table id item) (Responded r);
               EvConsole LogError
                 ("Error actualizando " +:+ table +:+ "/" +:+ id +:+ ":")
                 (Some (Error_HTTP (status r) None))],
      inl (Error_HTTP (status r) None)))
  ∧
  (respond (trace w) (API.delete_request table id) = Responded r →
   API.delete respond table id w =
     (after w [EvFetch (API.delete_request table id) (Responded r);
               EvConsole LogError
                 ("Error eliminando " +:+ table +:+ "/" +:+ id +:+ ":")
                 (Some (Error_HTTP (status r) None))],
      inl (Error_HTTP (status r) None))).
Proof.
  intros Hok. repeat split; intros Hres.
  - rewrite getAll_run, Hres. simpl. by rewrite Hok.
  - rewrite update_run, Hres. simpl. by rewrite Hok.
  - rewrite delete_run, Hres. simpl. by rewrite Hok.
Qed.

(** C2 — [save(table, items, 2)]: with [r1], [r2], [r3] the answers to the
    successive attempts, an endpoint that fails all three times is called
    exactly three times, with a pause of 500 ms after the first failure and
    of 1000 ms after the second, and the error of the third attempt is
    logged and thrown only then; an attempt that succeeds ends the call
    with the body of its answer, and no request follows it. *)
Theorem save_three_attempts table items w :
  let req := API.save_request table items in
  let r1 := respond (trace w) req in
  let w1 := after w [EvFetch req r1; EvSleep 500] in
  let r2 := respond (trace w1) req in
  let w2 := after w1 [EvFetch req r2; EvSleep 1000] in
  let r3 := respond (trace w2) req in
  let result := API.save respond table items 2 w in
  (∀ e1 e2 e3,
     write_outcome r1 = inl e1 → write_outcome r2 = inl e2 →
     write_outcome r3 = inl e3 →
     result =
       (after w [EvFetch req r1; EvSleep 500;
                 EvFetch req r2; EvSleep 1000;
                 EvFetch req r3;
                 EvConsole LogError (API.save_failed_message table 2) (Some e3)],
        inl e3))
  ∧ (∀ v, write_outcome r1 = inr v →
       result = (after w [EvFetch req r1], inr v))
  ∧ (∀ e1 v, write_outcome r1 = inl e1 → write_outcome r2 = inr v →
       result = (after w [EvFetch req r1; EvSleep 500; EvFetch req r2], inr v))
  ∧ (∀ e1 e2 v,
       write_outcome r1 = inl e1 → write_outcome r2 = inl e2 →
       write_outcome r3 = inr v →
       result =
         (after w [EvFetch req r1; EvSleep 500;
                   EvFetch req r2; EvSleep 1000;
                   EvFetch req r3],
          inr v)).
Proof.
  intros req r1 w1 r2 w2 r3 result.
  assert (Hrun : result =
    match write_outcome r1 with
    | inr v => (after w [EvFetch req r1], inr v)
    | inl _ =>
        match write_outcome r2 with
        | inr v => (after w1 [EvFetch req r2], inr v)
        | inl _ =>
            match write_outcome r3 with
            | inr v => (after w2 [EvFetch req r3], inr v)
            | inl e =>
                (after w2 [EvFetch req r3;
                           EvConsole LogError (API.save_failed_message table 2)
                                     (Some e)],
                 inl e)
            end
        end
    end).
  { subst result. unfold API.save.
    change (Z.to_nat (2 + 1)) with 3%nat.
    rewrite save_loop_step. fold req r1.
    destruct (write_outcome r1); [| done].
    change (0 =? 2) with false. cbv iota.
    change (500 * (0 + 1)) with 500. fold w1.
    rewrite save_loop_step. fold req r2.
    destruct (write_outcome r2); [| done].
    change (0 + 1 =? 2) with false. cbv iota.
    change (500 * (0 + 1 + 1)) with 1000. fold w2.
    rewrite save_loop_step. fold req r3.
    destruct (write_outcome r3); [| done].
    by change (0 + 1 + 1 =? 2) with true. }
  repeat split.
  - intros e1 e2 e3 H1 H2 H3. rewrite Hrun, H1, H2, H3.
    subst w2 w1. by rewrite !after_after.
  - intros v H1. by rewrite Hrun, H1.
  - intros e1 v H1 H2. rewrite Hrun, H1, H2.
    subst w1. by rewrite !after_after.
  - intros e1 e2 v H1 H2 H3. rewrite Hrun, H1, H2, H3.
    subst w2 w1. by rewrite !after_after.
Qed.

(** C10 — With a negative [retries] the loop of [save] is never entered:
    no request is issued, nothing is logged or thrown, and the call
    returns [undefined]. *)
Theorem save_negative_retries table items retries w :
  retries < 0 →
  API.save respond table items retries w = (w, inr VUndef).
Proof.
  intros Hneg. unfold API.save.
  replace (Z.to_nat (retries + 1)) with 0%nat by lia.
  reflexivity.
Qed.

End ClientFacts.

Lemma getAll_update_delete_fail_once_witness :
  let r := mkResponse 404 "Not Found" None in
  let w := fresh_world in
  API.getAll respond_not_found "orders" w =
    (after w [EvFetch (API.getAll_request "orders") (Responded r);
              EvConsole LogError "Error obteniendo orders:"
                (Some (Error_HTTP 404 (Some "Not Found")))],
     inl (Error_HTTP 404 (Some "Not Found")))
  ∧ API.update respond_not_found "orders" "7" empty_object w =
    (after w [EvFetch (API.update_request "orders" "7" empty_object) (Responded r);
              EvConsole LogError "Error actualizando orders/7:"
                (Some (Error_HTTP 404 None))],
     inl (Error_HTTP 404 None))
  ∧ API.delete respond_not_found "orders" "7" w =
    (after w [EvFetch (API.delete_request "orders" "7") (Responded r);
              EvConsole LogError "Error eliminando orders/7:"
                (Some (Error_HTTP 404 None))],
     inl (Error_HTTP 404 None)).
Proof.
  intros r w.
  destruct (getAll_update_delete_fail_once respond_not_found
              "orders" "7" empty_object w r eq_refl) as (Hget & Hupd & Hdel).
  split; [exact (Hget eq_refl) |].
  split; [exact (Hupd eq_refl) | exact (Hdel eq_refl)].
Defined.

Lemma save_three_attempts_witness :
  let req := API.save_request "menu_items" empty_array in
  let down := Rejected (NetworkError "Failed to fetch") in
  let up := Responded (mkResponse 200 "OK" (Some VNull)) in
  API.save (respond_after 3) "menu_items" empty_array 2 fresh_world =
    (after fresh_world
       [EvFetch req down; EvSleep 500; EvFetch req down; EvSleep 1000;
        EvFetch req down;
        EvConsole LogError (API.save_failed_message "menu_items" 2)
                  (Some (NetworkError "Failed to fetch"))],
     inl (NetworkError "Failed to fetch"))
  ∧ API.save (respond_after 0) "menu_items" empty_array 2 fresh_world =
    (after fresh_world [EvFetch req up], inr VNull)
  ∧ API.save (respond_after 1) "menu_items" empty_array 2 fresh_world =
    (after fresh_world [EvFetch req down; EvSleep 500; EvFetch req up],
     inr VNull)
  ∧ API.save (respond_after 2) "menu_items" empty_array 2 fresh_world =
    (after fresh_world
       [EvFetch req down; EvSleep 500; EvFetch req down; EvSleep 1000;
        EvFetch req up],
     inr VNull).
Proof.
  intros req down up.
  split.
  { destruct (save_three_attempts (respond_after 3) "menu_items" empty_array
                fresh_world) as (Hfail & _).
    exact (Hfail _ _ _ eq_refl eq_refl eq_refl). }
  split.
  { destruct (save_three_attempts (respond_after 0) "menu_items" empty_array
                fresh_world) as (_ & Hfirst & _).
    exact (Hfirst _ eq_refl). }
  split.
  { destruct (save_three_attempts (respond_after 1) "menu_items" empty_array
                fresh_world) as (_ & _ & Hsecond & _).
    exact (Hsecond _ _ eq_refl eq_refl). }
  destruct (save_three_attempts (respond_after 2) "menu_items" empty_array
              fresh_world) as (_ & _ & _ & Hthird).
  exact (Hthird _ _ _ eq_refl eq_refl eq_refl).
Defined.

Lemma save_negative_retries_witness :
  -1 < 0 ∧
  API.save respond_not_found "orders" empty_array (-1) fresh_world =
    (fresh_world, inr VUndef).
Proof.
  split; [lia |].
  apply (save_negative_retries respond_not_found "orders" empty_array (-1)
           fresh_world).
  lia.
Defined.

(** ** The initial load *)

Section LoadFacts.

Variable respond : list event → request → fetch_result.
Variable ToNumber_positive : value → exn + bool.

Lemma getAll_serves table v w :
  serves respond table v →
  API.getAll respond table w =
    (after w [EvFetch (API.getAll_request table)
                      (respond (trace w) (API.getAll_request table))],
     inr v).
Proof. intros H. rewrite getAll_run. cbv zeta. by rewrite H. Qed.

Lemma first_or_empty_array l x w :
  first_or_empty ToNumber_positive (VArr l x) w =
    (w, inr (match l with first :: _ => first | [] => empty_object end)).
Proof.
  unfold first_or_empty, length_of, bind, lift, ret. simpl.
  destruct l as [| first rest]; simpl; [done |].
  by destruct (List.length rest).
Qed.

Lemma getAll_then {B} table v (k : value → M B) w :
  serves respond table v →
  bind (API.getAll respond table) k w =
    k v (after w [EvFetch (API.getAll_request table)
                          (respond (trace w) (API.getAll_request table))]).
Proof. intros H. by rewrite (bind_inr _ _ _ _ _ (getAll_serves _ _ w H)). Qed.

(** The optional block of [loadInitialData]: it never throws. *)
Lemma cash_closures_block w :
  ∃ w' closures,
    try_catch
      (let* v := API.getAll respond "cash_closures" in set_cashClosures v)
      (fun _ =>
         console_warn "⚠️ Tabla cash_closures no disponible en el servidor" ;;
         set_cashClosures empty_array) w = (w', inr tt)
    ∧ app w' =
        mkAppState (menuItems (app w)) (orders (app w)) (transactions (app w))
                   (waiters (app w)) (config (app w)) closures
                   (isOnline (app w))
    ∧ (fails respond "cash_closures" → closures = empty_array)
    ∧ (∀ v, serves respond "cash_closures" v → closures = v).
Proof.
  unfold try_catch, bind at 1. rewrite getAll_run. cbv zeta.
  destruct (getAll_outcome _) as [e | v] eqn:Hout.
  - eexists _, empty_array. split; [reflexivity |].
    split; [reflexivity |]. split; [done |].
    intros v Hv. by rewrite Hv in Hout.
  - eexists _, v. split; [reflexivity |].
    split; [reflexivity |]. split.
    + intros Hfails. destruct (Hfails (trace w)) as [e He].
      by rewrite He in Hout.
    + intros v' Hv'. rewrite Hv' in Hout. by injection Hout.
Qed.

(** A required collection: fetched, then stored by [modify_app f]. *)
Lemma fetch_store_then {B} table v (f : value → AppState → AppState)
    (k : M B) w :
  serves respond table v →
  bind (API.getAll respond table)
       (fun v => bind (modify_app (f v)) (fun _ => k)) w =
    k (fetched table (respond (trace w) (API.getAll_request table)) (f v) w).
Proof. intros H. by rewrite (getAll_then _ _ _ _ H). Qed.

Ltac name_world w1 Happ :=
  match goal with
  | |- context [fetched ?tb ?res ?f ?w0] =>
      remember (fetched tb res f w0) as w1 eqn:Happ;
      apply (f_equal app) in Happ; cbn [fetched app] in Happ
  end.

Lemma loadInitialData_serves m o t wa c x w :
  serves respond "menu_items" m →
  serves respond "orders" o →
  serves respond "transactions" t →
  serves respond "waiters" wa →
  serves respond "config" (VArr c x) →
  ∃ w' closures,
    loadInitialData respond ToNumber_positive w = (w', inr tt)
    ∧ app w' =
        mkAppState m o t wa
          (match c with first :: _ => first | [] => empty_object end)
          closures (isOnline (app w))
    ∧ (fails respond "cash_closures" → closures = empty_array)
    ∧ (∀ v, serves respond "cash_closures" v → closures = v).
Proof.
  intros Hm Ho Ht Hwa Hc.
  unfold loadInitialData, try_catch at 1.
  unfold set_menuItems, set_orders, set_transactions, set_waiters.
  rewrite (fetch_store_then "menu_items" m with_menuItems) by exact Hm.
  name_world w1 Happ1.
  rewrite (fetch_store_then "orders" o with_orders) by exact Ho.
  name_world w2 Happ2. rewrite Happ1 in Happ2; cbn in Happ2.
  rewrite (fetch_store_then "transactions" t with_transactions) by exact Ht.
  name_world w3 Happ3. rewrite Happ2 in Happ3; cbn in Happ3.
  rewrite (fetch_store_then "waiters" wa with_waiters) by exact Hwa.
  name_world w4 Happ4. rewrite Happ3 in Happ4; cbn in Happ4.
  destruct (cash_closures_block w4) as (w5 & closures & Hrun & Happ5 & Hfail & Hok).
  rewrite (bind_inr _ _ _ _ _ Hrun).
  rewrite Happ4 in Happ5; cbn in Happ5.
  rewrite (getAll_then _ _ _ _ Hc).
  unfold bind at 1. rewrite first_or_empty_array.
  eexists _, closures. split; [reflexivity |]. split; [| done].
  cbn. by rewrite Happ5.
Qed.

(** C4 — When the [cash_closures] endpoint fails while the other
    collections are served, [loadInitialData] completes and leaves
    [AppState.cashClosures] as the empty list. When the [menu_items]
    endpoint fails, the error of that fetch is logged and thrown to the
    caller after that single request: no other collection is fetched and
    [AppState] is as before. *)
Theorem loadInitialData_optional_and_required m o t wa c x w :
  (serves respond "menu_items" m →
   serves respond "orders" o →
   serves respond "transactions" t →
   serves respond "waiters" wa →
   serves respond "config" (VArr c x) →
   fails respond "cash_closures" →
   ∃ w', loadInitialData respond ToNumber_positive w = (w', inr tt)
         ∧ cashClosures (app w') = empty_array)
  ∧
  (fails respond "menu_items" →
   ∃ e,
     getAll_outcome (respond (trace w) (API.getAll_request "menu_items")) = inl e
     ∧ loadInitialData respond ToNumber_positive w =
         (after w [EvFetch (API.getAll_request "menu_items")
                     (respond (trace w) (API.getAll_request "menu_items"));
                   EvConsole LogError "Error obteniendo menu_items:" (Some e);
                   EvConsole LogError "Error cargando datos iniciales:"
                             (Some e)],
          inl e)).
Proof.
  split.
  - intros Hm Ho Ht Hwa Hc Hcash.
    destruct (loadInitialData_serves m o t wa c x w Hm Ho Ht Hwa Hc)
      as (w' & closures & Hrun & Happ & Hfail & _).
    exists w'. split; [exact Hrun |].
    rewrite Happ. cbn. by apply Hfail.
  - intros Hdown. destruct (Hdown (trace w)) as [e He].
    exists e. split; [exact He |].
    unfold loadInitialData, try_catch at 1.
    unfold bind at 1. rewrite getAll_run. cbv zeta. rewrite He.
    unfold bind, console_error, emit, throw, after. cbn.
    by rewrite <- app_assoc.
Qed.

(** C8 — [loadInitialData] fetches the [config] collection and sets
    [AppState.config] to its first element when it has one, and to an
    empty object when it is empty. *)
Theorem loadInitialData_config m o t wa c x w :
  serves respond "menu_items" m →
  serves respond "orders" o →
  serves respond "transactions" t →
  serves respond "waiters" wa →
  serves respond "config" (VArr c x) →
  ∃ w', loadInitialData respond ToNumber_positive w = (w', inr tt)
        ∧ config (app w') =
            match c with first :: _ => first | [] => empty_object end.
Proof.
  intros Hm Ho Ht Hwa Hc.
  destruct (loadInitialData_serves m o t wa c x w Hm Ho Ht Hwa Hc)
    as (w' & closures & Hrun & Happ & _).
  exists w'. split; [exact Hrun |]. by rewrite Happ.
Qed.

End LoadFacts.

Lemma sample_backend_serves down cfg table :
  String.eqb (API_URL +:+ "/" +:+ table) (API_URL +:+ "/" +:+ down) = false →
  serves (sample_backend down cfg) table
    (if String.eqb (API_URL +:+ "/" +:+ table) (API_URL +:+ "/config")
     then VArr cfg ∅ else empty_array).
Proof.
  intros Hne history. unfold sample_backend, API.getAll_request. cbn [req_url req_method].
  rewrite Hne. by destruct (String.eqb _ (API_URL +:+ "/config")).
Defined.

Lemma sample_backend_fails down cfg : fails (sample_backend down cfg) down.
Proof.
  intros history. exists (NetworkError "Failed to fetch").
  unfold sample_backend, API.getAll_request. cbn [req_url].
  by rewrite String.eqb_refl.
Defined.

Lemma loadInitialData_optional_and_required_witness :
  (∃ w', loadInitialData (sample_backend "cash_closures" [])
           (fun _ => inr false) fresh_world = (w', inr tt)
         ∧ cashClosures (app w') = empty_array)
  ∧
  (∃ e,
     getAll_outcome
       (sample_backend "menu_items" [] (trace fresh_world)
          (API.getAll_request "menu_items")) = inl e
     ∧ loadInitialData (sample_backend "menu_items" []) (fun _ => inr false)
         fresh_world =
         (after fresh_world
            [EvFetch (API.getAll_request "menu_items")
               (sample_backend "menu_items" [] (trace fresh_world)
                  (API.getAll_request "menu_items"));
             EvConsole LogError "Error obteniendo menu_items:" (Some e);
             EvConsole LogError "Error cargando datos iniciales:" (Some e)],
          inl e)).
Proof.
  split.
  - destruct (loadInitialData_optional_and_required
                (sample_backend "cash_closures" []) (fun _ => inr false)
                empty_array empty_array empty_array empty_array [] ∅
                fresh_world) as [Hoptional _].
    apply Hoptional.
    + exact (sample_backend_serves "cash_closures" [] "menu_items" eq_refl).
    + exact (sample_backend_serves "cash_closures" [] "orders" eq_refl).
    + exact (sample_backend_serves "cash_closures" [] "transactions" eq_refl).
    + exact (sample_backend_serves "cash_closures" [] "waiters" eq_refl).
    + exact (sample_backend_serves "cash_closures" [] "config" eq_refl).
    + exact (sample_backend_fails "cash_closures" []).
  - destruct (loadInitialData_optional_and_required
                (sample_backend "menu_items" []) (fun _ => inr false)
                empty_array empty_array empty_array empty_array [] ∅
                fresh_world) as [_ Hrequired].
    apply Hrequired. exact (sample_backend_fails "menu_items" []).
Defined.

Lemma loadInitialData_config_witness :
  let shop := object_of [("name", VStr "Lazos de Amor")] in
  (∃ w', loadInitialData (sample_backend "" [shop]) (fun _ => inr false)
           fresh_world = (w', inr tt)
         ∧ config (app w') = shop)
  ∧
  (∃ w', loadInitialData (sample_backend "" []) (fun _ => inr false)
           fresh_world = (w', inr tt)
         ∧ config (app w') = empty_object).
Proof.
  intros shop. split.
  - apply (loadInitialData_config (sample_backend "" [shop])
             (fun _ => inr false)
             empty_array empty_array empty_array empty_array [shop] ∅
             fresh_world).
    + exact (sample_backend_serves "" [shop] "menu_items" eq_refl).
    + exact (sample_backend_serves "" [shop] "orders" eq_refl).
    + exact (sample_backend_serves "" [shop] "transactions" eq_refl).
    + exact (sample_backend_serves "" [shop] "waiters" eq_refl).
    + exact (sample_backend_serves "" [shop] "config" eq_refl).
  - apply (loadInitialData_config (sample_backend "" []) (fun _ => inr false)
             empty_array empty_array empty_array empty_array [] ∅
             fresh_world).
    + exact (sample_backend_serves "" [] "menu_items" eq_refl).
    + exact (sample_backend_serves "" [] "orders" eq_refl).
    + exact (sample_backend_serves "" [] "transactions" eq_refl).
    + exact (sample_backend_serves "" [] "waiters" eq_refl).
    + exact (sample_backend_serves "" [] "config" eq_refl).
Defined.

(** ** The date key *)

(** The resolved time zone of [formatDate] is the machine's: the model
    does tell local time zones apart where the program leaves the choice
    to the platform. *)
Lemma formatDate_local_time_zone format_instant amb date :
  Utils.formatDate format_instant amb date =
    format_instant "es-MX"
      (mkResolved (systemTimeZone amb)
         (mkOptions None (Some "numeric") (Some "2-digit") (Some "2-digit")
                    (Some "2-digit") (Some "2-digit")))
      date.
Proof. reflexivity. Qed.

(** C9 — [getDateKey] applied to a timestamp and a time zone gives the
    same key on any two machines, whatever their local time zones and
    clocks: the formatter is always built with an explicit [timeZone]
    (the argument, or [APP_TIMEZONE] when it is left out), so the
    platform never falls back on the local one. *)
Theorem getDateKey_independent_of_local_time_zone
    format_instant amb1 amb2 (instant : Z) (timeZone : option string) :
  Utils.getDateKey format_instant amb1 (Some instant) timeZone =
  Utils.getDateKey format_instant amb2 (Some instant) timeZone.
Proof. unfold Utils.getDateKey, DateTimeFormat_format, resolveOptions. reflexivity. Qed.

(** ** Properties of values *)

Lemma get_set_ne v k k' x :
  k ≠ k' → get_prop (set_prop v k x) k' = get_prop v k'.
Proof.
  intros Hne. destruct v; simpl; try done.
  - destruct (String.eqb k' "length"); [done |]. by rewrite lookup_insert_ne.
  - by rewrite lookup_insert_ne.
Qed.

Lemma get_delete_ne v k k' :
  k ≠ k' → get_prop (delete_prop v k) k' = get_prop v k'.
Proof.
  intros Hne. destruct v; simpl; try done.
  - destruct (String.eqb k' "length"); [done |]. by rewrite lookup_delete_ne.
  - by rewrite lookup_delete_ne.
Qed.

Lemma get_set_eq v k x :
  is_object v = true → k ≠ "length" → get_prop (set_prop v k x) k = x.
Proof.
  intros Hobj Hk. destruct v; simpl; try done.
  - apply String.eqb_neq in Hk. rewrite Hk. by rewrite lookup_insert_eq.
  - by rewrite lookup_insert_eq.
Qed.

Lemma get_delete_eq v k :
  is_object v = true → k ≠ "length" → get_prop (delete_prop v k) k = VUndef.
Proof.
  intros Hobj Hk. destruct v; simpl; try done.
  - apply String.eqb_neq in Hk. rewrite Hk. by rewrite lookup_delete_eq.
  - by rewrite lookup_delete_eq.
Qed.

Lemma is_object_set v k x : is_object (set_prop v k x) = is_object v.
Proof. by destruct v. Qed.

Lemma is_object_delete v k : is_object (delete_prop v k) = is_object v.
Proof. by destruct v. Qed.

Lemma is_object_not_nullish v : is_object v = true → nullish v = false.
Proof. by destruct v. Qed.

(** Assignments to a value without properties are ignored. *)
Lemma set_prop_primitive v k x : is_object v = false → set_prop v k x = v.
Proof. by destruct v. Qed.

Lemma delete_prop_primitive v k : is_object v = false → delete_prop v k = v.
Proof. by destruct v. Qed.

Lemma has_set_ne v k k' x :
  k ≠ k' → has_prop (set_prop v k x) k' = has_prop v k'.
Proof.
  intros Hne. destruct v; simpl; try done; by rewrite lookup_insert_ne.
Qed.

Lemma has_delete_eq v k : has_prop (delete_prop v k) k = false.
Proof.
  destruct v; simpl; try done; rewrite lookup_delete_eq;
    apply bool_decide_eq_false; by intros [? ?].
Qed.

(** ** The migration of one item *)

Ltac still_object :=
  repeat first [rewrite is_object_set | rewrite is_object_delete]; done.

Ltac read_fields :=
  repeat first
    [ rewrite is_object_set
    | rewrite is_object_delete
    | rewrite get_set_ne by done
    | rewrite get_delete_ne by done
    | rewrite has_set_ne by done
    | rewrite has_delete_eq
    | rewrite get_set_eq by still_object
    | rewrite get_delete_eq by still_object ].

Ltac use_facts :=
  repeat match goal with
         | H : ?lhs = _ |- context [?lhs] => rewrite H
         end.

Ltac settle :=
  repeat (progress (cbv beta iota zeta; read_fields; use_facts;
                    cbn [is_string truthy isArray negb orb andb String.eqb];
                    rewrite ?andb_false_r)).

(** What [migrate_item] makes of an object, field by field. *)
Lemma migrate_item_object item needsUpdate :
  is_object item = true →
  ∃ item' needsUpdate' thrown,
    migrate_item item needsUpdate = (item', needsUpdate', thrown)
    ∧ is_object item' = true
    ∧ get_prop item' "cost" = migrated_cost item
    ∧ get_prop item' "images" = migrated_images item
    ∧ get_prop item' "category" = migrated_category item
    ∧ (legacy_image item = true → has_prop item' "img" = false)
    ∧ (thrown = None ↔ migrates item = true).
Proof.
  intros Hobj.
  unfold migrate_item, migrates, migrated_cost, migrated_images,
    migrated_category, legacy_image.
  rewrite (is_object_not_nullish _ Hobj). cbn [negb andb].
  destruct (is_undefined (get_prop item "cost")) eqn:Hcost; settle;
  (destruct (truthy (get_prop item "img")
             && negb (truthy (get_prop item "images"))) eqn:Hlegacy;
   settle;
   [| destruct (negb (truthy (get_prop item "images"))
               || negb (isArray (get_prop item "images"))) eqn:Himages;
      settle ]);
  (destruct (get_prop item "category") as [| | c | n | s | l e | o] eqn:Hcategory;
   [ | | destruct c | destruct (n =? 0) eqn:Hzero
     | destruct (String.eqb s "") eqn:Hempty;
       [ apply String.eqb_eq in Hempty; subst s
       | destruct (String.eqb s "Cuero Artesanal") eqn:Hleather;
         [ | destruct (includes "trapillo" (toLowerCase s)) eqn:Hcrochet ] ]
     | | ];
   settle;
   try change (includes "trapillo" (toLowerCase "Cuero")) with false;
   try change (includes "trapillo" (toLowerCase "")) with false;
   settle;
   eexists _, _, _; (split; [reflexivity |]); settle;
   repeat split; try done).
Qed.

(** The flag [needsUpdate] has no influence on the item or on the throw. *)
Lemma migrate_item_flag item needsUpdate :
  (migrate_item item needsUpdate).1.1 = (migrate_item item false).1.1
  ∧ (migrate_item item needsUpdate).2 = (migrate_item item false).2.
Proof.
  unfold migrate_item.
  destruct (nullish item); [done |].
  repeat match goal with
         | |- context [if ?c then _ else _] => destruct c; cbv beta iota zeta
         | |- context [match ?c with VUndef => _ | _ => _ end] => destruct c
         end; done.
Qed.

(** The callback throws exactly on the items that [migrates] rejects. *)
Lemma migrate_item_thrown item needsUpdate :
  (migrate_item item needsUpdate).2 = None ↔ migrates item = true.
Proof.
  destruct (is_object item) eqn:Hobj.
  - destruct (migrate_item_object item needsUpdate Hobj)
      as (item' & flag & thrown & Hrun & _ & _ & _ & _ & _ & Hthrown).
    by rewrite Hrun.
  - destruct item; try done; unfold migrate_item, migrates; by cbn.
Qed.

(** An item in the current shape is left as it is. *)
Lemma migrate_item_fixed item needsUpdate :
  nullish item = false → migrated item = true →
  migrate_item item needsUpdate = (item, needsUpdate, None).
Proof.
  intros Hnull Hmigrated. unfold migrate_item. rewrite Hnull.
  unfold migrated in Hmigrated.
  apply andb_true_iff in Hmigrated as [Hmigrated Hcategory].
  apply andb_true_iff in Hmigrated as [Hcost Himages].
  apply negb_true_iff in Hcost.
  destruct (get_prop item "images") as [| | | | | l e |] eqn:Himg; try done.
  destruct (get_prop item "category") as [| | c | n | s | |] eqn:Hcat;
    cbn [truthy] in Hcategory; try done.
  - by settle.
  - by settle.
  - destruct c; [done |]. by settle.
  - apply negb_true_iff in Hcategory. by settle.
  - apply andb_true_iff in Hcategory as [Hleather Hcrochet].
    apply negb_true_iff in Hleather, Hcrochet.
    settle. by destruct (negb (String.eqb s "")).
Qed.

(** After the callback has run to its end on an object, the object is in
    the current shape. *)
Lemma migrate_item_migrated item needsUpdate :
  is_object item = true → migrates item = true →
  migrated (migrate_item item needsUpdate).1.1 = true.
Proof.
  intros Hobj Hmigrates.
  destruct (migrate_item_object item needsUpdate Hobj)
    as (item' & flag & thrown & Hrun & _ & Hcost & Himages & Hcategory & _).
  rewrite Hrun. cbn [fst]. unfold migrated.
  rewrite Hcost, Himages, Hcategory.
  unfold migrated_cost, migrated_images, migrated_category, migrates in *.
  rewrite (is_object_not_nullish _ Hobj) in Hmigrates. cbn [negb andb] in Hmigrates.
  assert (Hc : negb (is_undefined
            (if is_undefined (get_prop item "cost") then VNum 0
             else get_prop item "cost")) = true).
  { by destruct (is_undefined (get_prop item "cost")) eqn:E; [| rewrite E]. }
  rewrite Hc. clear Hc.
  assert (Hi : isArray
            (if legacy_image item then VArr [get_prop item "img"] ∅
             else if negb (truthy (get_prop item "images"))
                     || negb (isArray (get_prop item "images"))
                  then empty_array else get_prop item "images") = true).
  { destruct (legacy_image item); [done |].
    destruct (negb (truthy (get_prop item "images"))
              || negb (isArray (get_prop item "images"))) eqn:E; [done |].
    apply orb_false_iff in E as [_ E]. by apply negb_false_iff in E. }
  rewrite Hi. clear Hi. cbn [andb].
  destruct (get_prop item "category") as [| | c | n | s | |]; try done.
  destruct (String.eqb s "Cuero Artesanal") eqn:Hleather; [done |].
  destruct (includes "trapillo" (toLowerCase s)) eqn:Hcrochet; [done |].
  by rewrite Hleather, Hcrochet.
Qed.

(** ** The migration of the collection *)

Lemma forEach_migrate_cons item rest needsUpdate :
  forEach_migrate (item :: rest) needsUpdate =
    match (migrate_item item needsUpdate).2 with
    | Some e =>
        ((migrate_item item needsUpdate).1.1 :: rest,
         (migrate_item item needsUpdate).1.2, Some e)
    | None =>
        ((migrate_item item needsUpdate).1.1
           :: (forEach_migrate rest (migrate_item item needsUpdate).1.2).1.1,
         (forEach_migrate rest (migrate_item item needsUpdate).1.2).1.2,
         (forEach_migrate rest (migrate_item item needsUpdate).1.2).2)
    end.
Proof.
  cbn [forEach_migrate].
  destruct (migrate_item item needsUpdate) as [[item' flag] [e |]]; [done |].
  cbn [fst snd]. by destruct (forEach_migrate rest flag) as [[rest' flag'] thrown].
Qed.

(** The loop completes exactly when every item passes [migrates]. *)
Lemma forEach_migrate_completes items needsUpdate :
  (forEach_migrate items needsUpdate).2 = None ↔ forallb migrates items = true.
Proof.
  revert needsUpdate. induction items as [| item rest IH]; intros needsUpdate.
  - done.
  - rewrite forEach_migrate_cons. cbn [forallb].
    rewrite andb_true_iff, <- (migrate_item_thrown item needsUpdate).
    destruct (migrate_item item needsUpdate).2 as [e |] eqn:Hthrown; cbn [snd].
    + split; [done | by intros [? _]].
    + rewrite IH. split; [done | by intros [_ ?]].
Qed.

(** An item that the loop reaches ends as the callback leaves it. *)
Lemma forEach_migrate_lookup items needsUpdate i item :
  items !! i = Some item →
  forallb migrates (take i items) = true →
  (forEach_migrate items needsUpdate).1.1 !! i
    = Some (migrate_item item false).1.1.
Proof.
  revert needsUpdate i.
  induction items as [| first rest IH]; intros needsUpdate i Hi Hreach.
  - done.
  - rewrite forEach_migrate_cons. destruct i as [| i].
    + injection Hi as ->.
      destruct (migrate_item_flag item needsUpdate) as [-> _].
      by destruct (migrate_item item needsUpdate).2.
    + cbn [take forallb] in Hreach.
      apply andb_true_iff in Hreach as [Hfirst Hreach].
      apply (migrate_item_thrown first needsUpdate) in Hfirst.
      rewrite Hfirst. cbn [fst]. by apply IH.
Qed.

(** A collection in the current shape is left as it is, flag included. *)
Lemma forEach_migrate_fixed items needsUpdate :
  Forall (fun item => nullish item = false ∧ migrated item = true) items →
  forEach_migrate items needsUpdate = (items, needsUpdate, None).
Proof.
  induction 1 as [| item rest [Hnull Hmigrated] _ IH].
  - done.
  - rewrite forEach_migrate_cons, (migrate_item_fixed _ _ Hnull Hmigrated).
    cbn [fst snd]. by rewrite IH.
Qed.

(** After a loop that completed on objects, the collection is in the
    current shape. *)
Lemma forEach_migrate_migrated items needsUpdate :
  Forall (fun item => is_object item = true) items →
  (forEach_migrate items needsUpdate).2 = None →
  Forall (fun item => nullish item = false ∧ migrated item = true)
         (forEach_migrate items needsUpdate).1.1.
Proof.
  intros Hobjects. revert needsUpdate.
  induction Hobjects as [| item rest Hobj _ IH]; intros needsUpdate Hdone.
  - by constructor.
  - rewrite forEach_migrate_cons in *.
    destruct (migrate_item item needsUpdate).2 as [e |] eqn:Hthrown; [done |].
    cbn [fst snd] in *. constructor; [| by apply IH].
    apply migrate_item_thrown in Hthrown.
    split; [| by apply migrate_item_migrated].
    apply is_object_not_nullish.
    destruct (migrate_item_object item needsUpdate Hobj)
      as (item' & flag & thrown & Hrun & Hobj' & _).
    by rewrite Hrun.
Qed.

(** ** Counting the saves *)

Lemma writes_app evs evs' : writes (evs ++ evs') = (writes evs + writes evs')%nat.
Proof. unfold writes. by rewrite List.filter_app, length_app. Qed.

Lemma writes_to_app table evs evs' :
  writes_to table (evs ++ evs')
    = (writes_to table evs + writes_to table evs')%nat.
Proof. unfold writes_to. by rewrite List.filter_app, length_app. Qed.

Lemma writes_to_le table evs : (writes_to table evs ≤ writes evs)%nat.
Proof.
  unfold writes_to, writes, is_write_to.
  induction evs as [| ev evs IH]; [done |].
  cbn [List.filter]. destruct (is_write ev); cbn [andb].
  - destruct ev as [req res | |]; cbn [List.length]; try lia.
    destruct (String.eqb _ _); cbn [List.length]; lia.
  - done.
Qed.

Lemma writes_cons ev evs :
  writes (ev :: evs) = ((if is_write ev then 1 else 0) + writes evs)%nat.
Proof. unfold writes. cbn [List.filter]. by destruct (is_write ev). Qed.

Lemma writes_to_cons table ev evs :
  writes_to table (ev :: evs)
    = ((if is_write_to table ev then 1 else 0) + writes_to table evs)%nat.
Proof.
  unfold writes_to. cbn [List.filter]. by destruct (is_write_to table ev).
Qed.

Lemma events_of_after {A} (m : M A) w evs r :
  m w = (after w evs, r) → events_of m w = evs.
Proof.
  intros H. unfold events_of. rewrite H. cbn [fst after trace].
  by rewrite drop_app_length.
Qed.

Section SaveFacts.

Variable respond : list event → request → fetch_result.

(** Whatever the server does, one call of [save] only adds events to the
    log, and at most one of them is an acknowledged save, to its own
    table. *)
Lemma save_loop_events table items retries n i w :
  ∃ evs r,
    API.save_loop respond table items retries n i w = (after w evs, r)
    ∧ (writes evs ≤ 1)%nat
    ∧ (∀ other,
         String.eqb (API_URL +:+ "/" +:+ table) (API_URL +:+ "/" +:+ other)
           = false →
         writes_to other evs = 0%nat).
Proof.
  revert i w. induction n as [| n IH]; intros i w.
  - exists [], (inr VUndef). rewrite after_nil.
    split; [done |]. split; [cbn; lia | done].
  - rewrite save_loop_step. cbv zeta.
    set (req := API.save_request table items).
    set (res := respond (trace w) req).
    assert (Hother : ∀ other,
      String.eqb (API_URL +:+ "/" +:+ table) (API_URL +:+ "/" +:+ other) = false →
      is_write_to other (EvFetch req res) = false).
    { intros other Hne. unfold is_write_to. cbn [req_url req API.save_request].
      rewrite Hne. apply andb_false_r. }
    assert (Hsleep : ∀ ms, is_write (EvSleep ms) = false) by done.
    assert (Hlog : ∀ lvl msg e, is_write (EvConsole lvl msg e) = false) by done.
    assert (Hsleep' : ∀ other ms, is_write_to other (EvSleep ms) = false) by done.
    assert (Hlog' : ∀ other lvl msg e,
              is_write_to other (EvConsole lvl msg e) = false) by done.
    destruct (write_outcome res) as [e | v] eqn:Hout.
    + assert (Hfail : is_write (EvFetch req res) = false).
      { unfold is_write, req, API.save_request. by rewrite Hout. }
      destruct (i =? retries).
      * eexists _, _. split; [reflexivity |].
        split.
        -- rewrite !writes_cons, Hfail, Hlog. cbn. lia.
        -- intros other Hne.
           by rewrite !writes_to_cons, (Hother other Hne), Hlog'.
      * destruct (IH (i + 1)
                    (after w [EvFetch req res; EvSleep (500 * (i + 1))]))
          as (evs & r & Hrun & Hone & Hnone).
        rewrite Hrun, after_after. eexists _, _. split; [reflexivity |].
        split.
        -- rewrite writes_app, !writes_cons, Hfail, Hsleep. cbn. lia.
        -- intros other Hne.
           by rewrite writes_to_app, (Hnone other Hne), !writes_to_cons,
             (Hother other Hne), Hsleep'.
    + eexists _, _. split; [reflexivity |]. split.
      * rewrite writes_cons. destruct (is_write _); cbn; lia.
      * intros other Hne. by rewrite writes_to_cons, (Hother other Hne).
Qed.

Lemma save_events table items retries w :
  ∃ evs r,
    API.save respond table items retries w = (after w evs, r)
    ∧ (writes evs ≤ 1)%nat
    ∧ (∀ other,
         String.eqb (API_URL +:+ "/" +:+ table) (API_URL +:+ "/" +:+ other)
           = false →
         writes_to other evs = 0%nat).
Proof. apply save_loop_events. Qed.

End SaveFacts.

(** ** The default data *)

Lemma bind_ret_tt {A} (m : M A) w w' r :
  m w = (w', r) →
  bind m (fun _ => ret tt) w
    = (w', match r with inr _ => inr tt | inl e => inl e end).
Proof. intros H. unfold bind. rewrite H. by destruct r. Qed.

Section SeedFacts.

Variable respond : list event → request → fetch_result.
Variable generateId_at : nat → string.

(** The first statement on a menu that is a non-empty array: the items
    are migrated in place, and saved if the loop completed and changed
    something. *)
Lemma initializeMenuItems_migration w items extra :
  menuItems (app w) = VArr items extra → items ≠ [] →
  let r := forEach_migrate items false in
  let wm := mkWorld (with_menuItems (VArr r.1.1 extra) (app w))
                    (trace w) (ids w) in
  initializeMenuItems respond generateId_at w =
    match r.2 with
    | Some e => (wm, inl e)
    | None =>
        if r.1.2
        then bind (API.save respond "menu_items" (VArr r.1.1 extra) 2)
                  (fun _ => ret tt) wm
        else (wm, inr tt)
    end.
Proof.
  intros Hmenu Hne r wm. subst r wm.
  unfold initializeMenuItems, get_app, length_of. unfold bind at 1 2.
  rewrite Hmenu. cbn [nullish get_prop String.eqb Ascii.eqb Bool.eqb ret is_zero].
  destruct items as [| item rest]; [done |].
  replace (Z.of_nat (List.length (item :: rest)) =? 0) with false
    by (symmetry; apply Z.eqb_neq; cbn [List.length]; lia).
  destruct (forEach_migrate (item :: rest) false) as [[items' flag] thrown].
  cbn [fst snd]. unfold set_menuItems, modify_app. unfold bind at 1.
  destruct thrown as [e |]; [done |].
  destruct flag; [| done].
  unfold bind at 1. reflexivity.
Qed.

(** The second statement only adds events, keeps the menu, and saves at
    most once, to [waiters]; when it completes, there are waiters. *)
Lemma initializeWaiters_events w :
  ∃ evs app' ids' r,
    initializeWaiters respond generateId_at w
      = (mkWorld app' (trace w ++ evs) ids', r)
    ∧ menuItems app' = menuItems (app w)
    ∧ (writes evs ≤ 1)%nat
    ∧ writes_to "menu_items" evs = 0%nat
    ∧ (r = inr tt →
       nullish (waiters app') = false
       ∧ is_zero (get_prop (waiters app') "length") = false).
Proof.
  unfold initializeWaiters, get_app, length_of. unfold bind at 1 2.
  destruct (nullish (waiters (app w))) eqn:Hnull.
  - exists [], (app w), (ids w), (inl (TypeError
      "Cannot read properties of null (reading 'length')")).
    rewrite app_nil_r. destruct w. unfold throw.
    repeat split; try done. cbn; lia.
  - cbn [ret]. destruct (is_zero (get_prop (waiters (app w)) "length")) eqn:Hlen.
    + unfold Utils.generateId, set_waiters, modify_app. unfold bind at 1 2 3 4.
      cbn [app trace ids].
      match goal with
      | |- context [bind (API.save respond "waiters" ?items 2) _ ?w0] =>
          destruct (save_events respond "waiters" items 2 w0)
            as (evs & r & Hrun & Hone & Hnone);
          rewrite (bind_ret_tt _ _ _ _ Hrun)
      end.
      eexists evs, _, _, _. split; [reflexivity |].
      split; [done |]. split; [exact Hone |].
      split; [by apply Hnone |].
      by destruct r.
    + exists [], (app w), (ids w), (inr tt).
      rewrite app_nil_r. destruct w. unfold ret.
      repeat split; try done. cbn; lia.
Qed.

(** With waiters present the second statement does nothing. *)
Lemma initializeWaiters_present w :
  nullish (waiters (app w)) = false →
  is_zero (get_prop (waiters (app w)) "length") = false →
  initializeWaiters respond generateId_at w = (w, inr tt).
Proof.
  intros Hnull Hlen.
  unfold initializeWaiters, get_app, length_of. unfold bind at 1 2.
  by rewrite Hnull; cbn [ret]; rewrite Hlen.
Qed.

(** Whatever the outcome of the call, a menu that was a non-empty array
    ends as the loop of the migration left it. *)
Lemma initializeDefaultData_menu w items extra :
  menuItems (app w) = VArr items extra → items ≠ [] →
  menu_of (initializeDefaultData respond generateId_at w).1
    = (forEach_migrate items false).1.1.
Proof.
  intros Hmenu Hne. unfold initializeDefaultData. unfold bind at 1.
  rewrite (initializeMenuItems_migration w items extra Hmenu Hne). cbv zeta.
  destruct (forEach_migrate items false) as [[items' flag] thrown].
  cbn [fst snd].
  set (wm := mkWorld (with_menuItems (VArr items' extra) (app w))
                     (trace w) (ids w)).
  assert (Hwaiters : ∀ w0,
    menuItems (app w0) = VArr items' extra →
    menu_of (initializeWaiters respond generateId_at w0).1 = items').
  { intros w0 Hw0.
    destruct (initializeWaiters_events w0)
      as (evs & app' & ids' & r & Hrun & Hkeep & _).
    rewrite Hrun. unfold menu_of. cbn [fst app]. by rewrite Hkeep, Hw0. }
  destruct thrown as [e |]; [done |].
  destruct flag.
  - destruct (save_events respond "menu_items" (VArr items' extra) 2 wm)
      as (evs & r & Hrun & _).
    rewrite (bind_ret_tt _ _ _ _ Hrun).
    destruct r as [e | v]; [done |].
    by apply Hwaiters.
  - by apply Hwaiters.
Qed.

End SeedFacts.

(** ** The migration, record by record *)

Section MigrationFacts.

Variable respond : list event → request → fetch_result.
Variable generateId_at : nat → string.

(** The record at index [i] after the call, when the loop reaches it. *)
Lemma migrated_record w i item :
  menu_of w !! i = Some item →
  forallb migrates (take i (menu_of w)) = true →
  menu_of (initializeDefaultData respond generateId_at w).1 !! i
    = Some (migrate_item item false).1.1.
Proof.
  intros Hitem Hreach. unfold menu_of in Hitem, Hreach.
  destruct (menuItems (app w)) as [| | | | | items extra |] eqn:Hmenu; try done.
  rewrite (initializeDefaultData_menu respond generateId_at w items extra Hmenu).
  - by apply forEach_migrate_lookup.
  - by intros ->.
Qed.

(** C5 — Category rename in [initializeDefaultData]: for every record of
    the menu that the loop of the migration reaches (no element before it
    is [null] or has a truthy category that is not a string, on which
    [toLowerCase] throws and ends the loop), a category equal to
    ["Cuero Artesanal"] becomes ["Cuero"], a category that contains
    [trapillo] in some casing becomes ["Tejidos Crochet"], and any other
    category is left as it was. *)
Theorem categories_renamed_when_reached w i item :
  menu_of w !! i = Some item →
  is_object item = true →
  forallb migrates (take i (menu_of w)) = true →
  category_renamed respond generateId_at w i item.
Proof.
  intros Hitem Hobj Hreach.
  exists (migrate_item item false).1.1.
  split; [by apply migrated_record |].
  destruct (migrate_item_object item false Hobj)
    as (item' & flag & thrown & Hrun & _ & _ & _ & Hcategory & _).
  rewrite Hrun. cbn [fst]. rewrite Hcategory. unfold migrated_category.
  split; [| split].
  - by intros ->.
  - intros s -> Hcrochet. rewrite Hcrochet.
    by destruct (String.eqb s "Cuero Artesanal") eqn:E;
      [apply String.eqb_eq in E; subst s |].
  - intros Hleather Hcrochet.
    destruct (get_prop item "category") as [| | | | s | |]; try done.
    destruct (String.eqb s "Cuero Artesanal") eqn:E.
    + apply String.eqb_eq in E. by subst s.
    + by rewrite (Hcrochet s eq_refl).
Qed.

(** C6 — Legacy image in [initializeDefaultData]: for every record of the
    menu that the loop of the migration reaches, with a truthy [img] and
    an [images] that is missing or falsy, the record ends with [images]
    the one-element list of its former [img], and without [img]. *)
Theorem legacy_image_migration w i item :
  menu_of w !! i = Some item →
  is_object item = true →
  truthy (get_prop item "img") = true →
  truthy (get_prop item "images") = false →
  forallb migrates (take i (menu_of w)) = true →
  image_migrated respond generateId_at w i item.
Proof.
  intros Hitem Hobj Himg Himages Hreach.
  exists (migrate_item item false).1.1.
  split; [by apply migrated_record |].
  destruct (migrate_item_object item false Hobj)
    as (item' & flag & thrown & Hrun & _ & _ & Hlist & _ & Hgone & _).
  rewrite Hrun. cbn [fst].
  assert (Hlegacy : legacy_image item = true).
  { unfold legacy_image. by rewrite Himg, Himages. }
  split; [| by apply Hgone].
  rewrite Hlist. unfold migrated_images. by rewrite Hlegacy.
Qed.

(** C7 — In the migration branch of [initializeDefaultData], when the
    loop runs to its end (no element is [null] or has a truthy category
    that is not a string), every record whose [images] is missing or not
    an array ends with the one-element list of its [img] if that is truthy
    and [images] was falsy, and with the empty list otherwise, whatever
    value was there; and every record ends with an array as [images] and
    a defined [cost]. *)
Theorem images_always_array w i item :
  menu_of w !! i = Some item →
  is_object item = true →
  forallb migrates (menu_of w) = true →
  images_normalized respond generateId_at w i item.
Proof.
  intros Hitem Hobj Hcomplete.
  exists (migrate_item item false).1.1.
  split.
  { apply migrated_record; [done |].
    rewrite <- (take_drop i (menu_of w)), forallb_app in Hcomplete.
    by apply andb_true_iff in Hcomplete as [? _]. }
  destruct (migrate_item_object item false Hobj)
    as (item' & flag & thrown & Hrun & _ & Hcost & Hlist & _).
  rewrite Hrun. cbn [fst]. rewrite Hcost, Hlist.
  unfold migrated_cost, migrated_images.
  split; [| split].
  - intros Hnot. destruct (legacy_image item); [done |].
    rewrite Hnot. by rewrite orb_true_r.
  - destruct (legacy_image item); [done |].
    destruct (negb (truthy (get_prop item "images"))
              || negb (isArray (get_prop item "images"))) eqn:E; [done |].
    apply orb_false_iff in E as [_ E]. by apply negb_false_iff in E.
  - by destruct (is_undefined (get_prop item "cost")) eqn:E.
Qed.

End MigrationFacts.

Lemma categories_renamed_when_reached_witness :
  let w := world_with_menu menu_to_migrate in
  ∃ item,
    menu_of w !! 1%nat = Some item
    ∧ get_prop item "category" = VStr "Cestas de Trapillo"
    ∧ category_renamed (respond_after 0) sample_ids w 1 item.
Proof.
  intros w. eexists. split; [reflexivity |]. split; [reflexivity |].
  apply (categories_renamed_when_reached (respond_after 0) sample_ids w 1);
    reflexivity.
Defined.

(** The loop stops at the first record, whose category is the number 5;
    the second keeps the category ["Cuero Artesanal"]. *)
Lemma categories_renamed_when_reached_counterexample :
  let w := world_with_menu menu_with_numeric_category in
  ∃ item,
    menu_of w !! 1%nat = Some item
    ∧ is_object item = true
    ∧ get_prop item "category" = VStr "Cuero Artesanal"
    ∧ ¬ category_renamed (respond_after 0) sample_ids w 1 item.
Proof.
  intros w. eexists. split; [reflexivity |]. split; [reflexivity |].
  split; [reflexivity |].
  intros (item' & Hitem' & Hleather & _).
  vm_compute in Hitem'. injection Hitem' as <-.
  specialize (Hleather eq_refl). vm_compute in Hleather. discriminate.
Qed.

Lemma legacy_image_migration_witness :
  let w := world_with_menu menu_to_migrate in
  ∃ item,
    menu_of w !! 0%nat = Some item
    ∧ get_prop item "img" = VStr "cinturon.png"
    ∧ image_migrated (respond_after 0) sample_ids w 0 item.
Proof.
  intros w. eexists. split; [reflexivity |]. split; [reflexivity |].
  apply (legacy_image_migration (respond_after 0) sample_ids w 0);
    reflexivity.
Defined.

(** The first record has the empty string as [img]: it keeps it and gets
    an empty image list. The loop stops at the second record, so the
    third keeps its [img] and gets no image list. *)
Lemma legacy_image_migration_counterexample :
  let w := world_with_menu menu_with_legacy_images in
  (∃ item,
     menu_of w !! 0%nat = Some item
     ∧ is_object item = true
     ∧ has_prop item "img" = true ∧ has_prop item "images" = false
     ∧ ¬ image_migrated (respond_after 0) sample_ids w 0 item)
  ∧
  (∃ item,
     menu_of w !! 2%nat = Some item
     ∧ is_object item = true
     ∧ has_prop item "img" = true ∧ has_prop item "images" = false
     ∧ ¬ image_migrated (respond_after 0) sample_ids w 2 item).
Proof.
  intros w. split.
  - eexists. do 4 (split; [reflexivity |]).
    intros (item' & Hitem' & Hlist & _).
    vm_compute in Hitem'. injection Hitem' as <-.
    vm_compute in Hlist. discriminate.
  - eexists. do 4 (split; [reflexivity |]).
    intros (item' & Hitem' & Hlist & _).
    vm_compute in Hitem'. injection Hitem' as <-.
    vm_compute in Hlist. discriminate.
Qed.

Lemma images_always_array_witness :
  let w := world_with_menu menu_to_migrate in
  ∃ item,
    menu_of w !! 1%nat = Some item
    ∧ get_prop item "images" = VStr "cesta.png"
    ∧ images_normalized (respond_after 0) sample_ids w 1 item.
Proof.
  intros w. eexists. split; [reflexivity |]. split; [reflexivity |].
  apply (images_always_array (respond_after 0) sample_ids w 1);
    reflexivity.
Defined.

(** The first record has no [images] but an [img]: it ends with the list
    of that image, not the empty list. The loop stops at the second
    record, so the third keeps the string it has as [images]. *)
Lemma images_always_array_counterexample :
  let w := world_with_menu menu_with_odd_images in
  (∃ item,
     menu_of w !! 0%nat = Some item
     ∧ is_object item = true
     ∧ isArray (get_prop item "images") = false
     ∧ ¬ images_reset (respond_after 0) sample_ids w 0 item)
  ∧
  (∃ item,
     menu_of w !! 2%nat = Some item
     ∧ is_object item = true
     ∧ isArray (get_prop item "images") = false
     ∧ ¬ images_reset (respond_after 0) sample_ids w 2 item).
Proof.
  intros w. split.
  - eexists. do 3 (split; [reflexivity |]).
    intros (item' & Hitem' & Hlist).
    vm_compute in Hitem'. injection Hitem' as <-.
    vm_compute in Hlist. discriminate.
  - eexists. do 3 (split; [reflexivity |]).
    intros (item' & Hitem' & Hlist).
    vm_compute in Hitem'. injection Hitem' as <-.
    vm_compute in Hlist. discriminate.
Qed.

(** ** Calling [initializeDefaultData] again *)

Lemma forEach_migrate_length items needsUpdate :
  List.length (forEach_migrate items needsUpdate).1.1 = List.length items.
Proof.
  revert needsUpdate. induction items as [| item rest IH]; intros needsUpdate.
  - done.
  - rewrite forEach_migrate_cons.
    destruct (migrate_item item needsUpdate).2; cbn [fst List.length]; [done |].
    by rewrite IH.
Qed.

Lemma with_menuItems_same v s : menuItems s = v → with_menuItems v s = s.
Proof. intros <-. by destruct s. Qed.

Section AgainFacts.

Variable respond : list event → request → fetch_result.
Variable generateId_at : nat → string.

(** On a menu in the current shape, with waiters present, the call sends
    nothing and changes nothing. *)
Lemma initializeDefaultData_settled w items extra :
  menuItems (app w) = VArr items extra → items ≠ [] →
  Forall (fun item => nullish item = false ∧ migrated item = true) items →
  nullish (waiters (app w)) = false →
  is_zero (get_prop (waiters (app w)) "length") = false →
  initializeDefaultData respond generateId_at w = (w, inr tt).
Proof.
  intros Hmenu Hne Hshape Hnull Hlen.
  unfold initializeDefaultData. unfold bind at 1.
  rewrite (initializeMenuItems_migration respond generateId_at w items extra
             Hmenu Hne).
  cbv zeta. rewrite (forEach_migrate_fixed items false Hshape). cbn [fst snd].
  rewrite (with_menuItems_same _ _ Hmenu).
  replace (mkWorld (app w) (trace w) (ids w)) with w by by destruct w.
  by apply initializeWaiters_present.
Qed.

(** C1 — On a menu that is a non-empty array of objects, when a first
    call of [initializeDefaultData] completes without an error, it has
    made at most one acknowledged save of each of the two collections
    (of [menu_items] if a record changed, of [waiters] if there was
    none), and a second call in succession sends no request, leaves the
    world as it is and completes. *)
Theorem initializeDefaultData_twice w items extra w1 :
  menuItems (app w) = VArr items extra → items ≠ [] →
  Forall (fun item => is_object item = true) items →
  initializeDefaultData respond generateId_at w = (w1, inr tt) →
  let first := initializeDefaultData respond generateId_at in
  (writes_to "menu_items" (events_of first w) ≤ 1)%nat
  ∧ (writes_to "waiters" (events_of first w) ≤ 1)%nat
  ∧ (writes (events_of first w) ≤ 2)%nat
  ∧ first w1 = (w1, inr tt)
  ∧ events_of first w1 = [].
Proof.
  intros Hmenu Hne Hobjects Hrun first.
  assert (Hevents : events_of first w
                    = drop (List.length (trace w)) (trace w1)).
  { unfold events_of, first. by rewrite Hrun. }
  rewrite Hevents. clear Hevents.
  unfold initializeDefaultData in Hrun. unfold bind at 1 in Hrun.
  rewrite (initializeMenuItems_migration respond generateId_at w items extra
             Hmenu Hne) in Hrun.
  cbv zeta in Hrun.
  pose proof (forEach_migrate_migrated items false Hobjects) as Hshape.
  pose proof (forEach_migrate_length items false) as Hlength.
  destruct (forEach_migrate items false) as [[items' flag] thrown].
  cbn [fst snd] in *.
  destruct thrown as [e |]; [done |]. specialize (Hshape eq_refl).
  set (wm := mkWorld (with_menuItems (VArr items' extra) (app w))
                     (trace w) (ids w)) in *.
  (* the save of the menu, if any *)
  assert (Hsaved : ∃ evs,
    initializeWaiters respond generateId_at (after wm evs) = (w1, inr tt)
    ∧ (writes evs ≤ 1)%nat ∧ writes_to "waiters" evs = 0%nat).
  { destruct flag.
    - destruct (save_events respond "menu_items" (VArr items' extra) 2 wm)
        as (evs & r & Hsave & Hone & Hnone).
      rewrite (bind_ret_tt _ _ _ _ Hsave) in Hrun.
      destruct r as [e | v]; [done |].
      exists evs. split; [done |]. split; [done |]. by apply Hnone.
    - exists []. rewrite after_nil. split; [done |].
      split; [cbn; lia | done]. }
  clear Hrun. destruct Hsaved as (evs & Hrun & Hone & Hnone).
  destruct (initializeWaiters_events respond generateId_at (after wm evs))
    as (evs' & app' & ids' & r & Hrun' & Hkeep & Hone' & Hnone' & Hthere).
  rewrite Hrun in Hrun'. injection Hrun' as -> <-.
  destruct (Hthere eq_refl) as [Hnull Hlen].
  cbn [after app trace wm] in *.
  rewrite <- app_assoc, drop_app_length.
  pose proof (writes_to_le "menu_items" evs).
  pose proof (writes_to_le "waiters" evs').
  assert (Hsettled : first (mkWorld app' (trace w ++ evs ++ evs') ids')
                     = (mkWorld app' (trace w ++ evs ++ evs') ids', inr tt)).
  { apply (initializeDefaultData_settled _ items' extra); try done.
    intros ->. by destruct items. }
  split; [rewrite writes_to_app; lia |].
  split; [rewrite writes_to_app; lia |].
  split; [rewrite writes_app; lia |].
  split; [exact Hsettled |].
  apply (events_of_after _ _ _ (inr tt)). by rewrite after_nil.
Qed.

End AgainFacts.

Lemma initializeDefaultData_twice_witness :
  let first := initializeDefaultData (respond_after 0) sample_ids in
  let w := world_with_menu menu_to_migrate in
  let w1 := (first w).1 in
  (writes_to "menu_items" (events_of first w) ≤ 1)%nat
  ∧ (writes_to "waiters" (events_of first w) ≤ 1)%nat
  ∧ (writes (events_of first w) ≤ 2)%nat
  ∧ first w1 = (w1, inr tt)
  ∧ events_of first w1 = [].
Proof.
  intros first w w1.
  apply (initializeDefaultData_twice (respond_after 0) sample_ids w
           menu_to_migrate ∅ w1).
  - reflexivity.
  - discriminate.
  - repeat constructor.
  - vm_compute. reflexivity.
Defined.

(** On a fresh page and a server that acknowledges every save, the first
    call seeds and saves both collections, and the second call saves the
    menu again: the seeded records have no [images], which the migration
    adds. *)
Lemma initializeDefaultData_twice_counterexample :
  let first := initializeDefaultData (respond_after 0) sample_ids in
  writes (events_of first fresh_world) = 2%nat
  ∧ writes (events_of first (first fresh_world).1) = 1%nat
  ∧ ¬ idempotent_from (respond_after 0) sample_ids fresh_world.
Proof.
  intros first.
  assert (H1 : writes (events_of first fresh_world) = 2%nat)
    by (vm_compute; reflexivity).
  assert (H2 : writes (events_of first (first fresh_world).1) = 1%nat)
    by (vm_compute; reflexivity).
  split; [exact H1 |]. split; [exact H2 |].
  intros [_ Hnone]. fold first in Hnone. rewrite H2 in Hnone. discriminate.
Qed.

(** When the save of the migrated menu fails (here the server is down for
    the three attempts), the call throws with the menu migrated in memory
    only. A second call then finds nothing to migrate, so the menu is not
    saved by it either, while the waiters, still missing, are seeded and
    saved. *)
Example initializeDefaultData_after_failed_save :
  let first := initializeDefaultData (respond_after 3) sample_ids in
  let w := world_without_waiters menu_to_migrate in
  (first w).2 = inl (NetworkError "Failed to fetch")
  ∧ List.length (requests (events_of first w)) = 3%nat
  ∧ writes (events_of first w) = 0%nat
  ∧ (first (first w).1).2 = inr tt
  ∧ writes_to "menu_items" (events_of first (first w).1) = 0%nat
  ∧ writes_to "waiters" (events_of first (first w).1) = 1%nat.
Proof. vm_compute. by repeat split. Qed.

(** * Further properties of the code *)

Local Open Scope list_scope.

(** ** The API client, on any answer *)

Section ApiAnswers.

Variable respond : list event → request → fetch_result.

(** X1 — On an answer with a status in 200..299 whose body parses,
    [getAll], [update] and [delete] return that body as it is, after a
    single request and without a log entry. *)
Theorem getAll_update_delete_return_body table id item w r v :
  ok r = true → json r = Some v →
  (respond (trace w) (API.getAll_request table) = Responded r →
   API.getAll respond table w =
     (after w [EvFetch (API.getAll_request table) (Responded r)], inr v))
  ∧
  (respond (trace w) (API.update_request table id item) = Responded r →
   API.update respond table id item w =
     (after w [EvFetch (API.update_request table id item) (Responded r)],
      inr v))
  ∧
  (respond (trace w) (API.delete_request table id) = Responded r →
   API.delete respond table id w =
     (after w [EvFetch (API.delete_request table id) (Responded r)], inr v)).
Proof.
  intros Hok Hjson. repeat split; intros Hres.
  - rewrite getAll_run, Hres. simpl. by rewrite Hok, Hjson.
  - rewrite update_run, Hres. simpl. by rewrite Hok, Hjson.
  - rewrite delete_run, Hres. simpl. by rewrite Hok, Hjson.
Qed.

(** X2 — Whatever the server does, [getAll], [update] and [delete] issue
    exactly one request each (the read of the table, the [PUT] or the
    [DELETE] of the record) and leave [AppState] as it is; the console
    gets one entry when the call throws and none when it returns. *)
Theorem getAll_update_delete_one_request table id item w :
  let outcome {A} (m : M A) (req : request) :=
    requests (events_of m w) = [req]
    ∧ app (m w).1 = app w
    ∧ console_entries (events_of m w)
      = match (m w).2 with inl _ => 1%nat | inr _ => 0%nat end in
  outcome (API.getAll respond table) (API.getAll_request table)
  ∧ outcome (API.update respond table id item)
            (API.update_request table id item)
  ∧ outcome (API.delete respond table id) (API.delete_request table id).
Proof.
  cbv zeta. split; [| split].
  - pose proof (getAll_run respond table w) as Hrun. cbv zeta in Hrun.
    destruct (getAll_outcome _);
      by rewrite (events_of_after _ _ _ _ Hrun), Hrun.
  - pose proof (update_run respond table id item w) as Hrun. cbv zeta in Hrun.
    destruct (write_outcome _);
      by rewrite (events_of_after _ _ _ _ Hrun), Hrun.
  - pose proof (delete_run respond table id w) as Hrun. cbv zeta in Hrun.
    destruct (write_outcome _);
      by rewrite (events_of_after _ _ _ _ Hrun), Hrun.
Qed.

(** X3 — A failure that is not an error status reaches the caller as it
    is, after one request and one log entry: when [fetch] rejects,
    [getAll], [update] and [delete] throw the error of the rejection, and
    when the body of a successful answer does not parse they throw the
    [SyntaxError] of [response.json()]. *)
Theorem getAll_update_delete_rethrow table id item w e :
  (transport_failure (respond (trace w) (API.getAll_request table)) e →
   API.getAll respond table w =
     (after w [EvFetch (API.getAll_request table)
                 (respond (trace w) (API.getAll_request table));
               EvConsole LogError ("Error obteniendo " +:+ table +:+ ":")
                 (Some e)],
      inl e))
  ∧
  (transport_failure (respond (trace w) (API.update_request table id item)) e →
   API.update respond table id item w =
     (after w [EvFetch (API.update_request table id item)
                 (respond (trace w) (API.update_request table id item));
               EvConsole LogError
                 ("Error actualizando " +:+ table +:+ "/" +:+ id +:+ ":")
                 (Some e)],
      inl e))
  ∧
  (transport_failure (respond (trace w) (API.delete_request table id)) e →
   API.delete respond table id w =
     (after w [EvFetch (API.delete_request table id)
                 (respond (trace w) (API.delete_request table id));
               EvConsole LogError
                 ("Error eliminando " +:+ table +:+ "/" +:+ id +:+ ":")
                 (Some e)],
      inl e)).
Proof.
  split; [| split].
  - intros Hfail. rewrite getAll_run. cbv zeta.
    destruct Hfail as [-> | (r & -> & Hok & Hjson & ->)]; [done |].
    cbn. by rewrite Hok, Hjson.
  - intros Hfail. rewrite update_run. cbv zeta.
    destruct Hfail as [-> | (r & -> & Hok & Hjson & ->)]; [done |].
    cbn. by rewrite Hok, Hjson.
  - intros Hfail. rewrite delete_run. cbv zeta.
    destruct Hfail as [-> | (r & -> & Hok & Hjson & ->)]; [done |].
    cbn. by rewrite Hok, Hjson.
Qed.

End ApiAnswers.

Lemma getAll_update_delete_return_body_witness :
  let r := mkResponse 200 "OK" (Some VNull) in
  let w := fresh_world in
  API.getAll (respond_after 0) "orders" w =
    (after w [EvFetch (API.getAll_request "orders") (Responded r)], inr VNull)
  ∧ API.update (respond_after 0) "orders" "7" empty_object w =
    (after w [EvFetch (API.update_request "orders" "7" empty_object)
                (Responded r)],
     inr VNull)
  ∧ API.delete (respond_after 0) "orders" "7" w =
    (after w [EvFetch (API.delete_request "orders" "7") (Responded r)],
     inr VNull).
Proof.
  intros r w.
  destruct (getAll_update_delete_return_body (respond_after 0)
              "orders" "7" empty_object w r VNull eq_refl eq_refl)
    as (Hget & Hupd & Hdel).
  split; [exact (Hget eq_refl) |].
  split; [exact (Hupd eq_refl) | exact (Hdel eq_refl)].
Defined.

Lemma getAll_update_delete_rethrow_witness :
  (API.getAll (respond_after 1) "orders" fresh_world).2
    = inl (NetworkError "Failed to fetch")
  ∧ (API.update respond_not_json "orders" "7" empty_object fresh_world).2
    = inl SyntaxError
  ∧ (API.delete respond_not_json "orders" "7" fresh_world).2
    = inl SyntaxError.
Proof.
  split; [| split].
  - destruct (getAll_update_delete_rethrow (respond_after 1) "orders" "7"
                empty_object fresh_world (NetworkError "Failed to fetch"))
      as (Hget & _).
    rewrite Hget; [reflexivity | by left].
  - destruct (getAll_update_delete_rethrow respond_not_json "orders" "7"
                empty_object fresh_world SyntaxError) as (_ & Hupd & _).
    rewrite Hupd; [reflexivity |]. right. by eexists.
  - destruct (getAll_update_delete_rethrow respond_not_json "orders" "7"
                empty_object fresh_world SyntaxError) as (_ & _ & Hdel).
    rewrite Hdel; [reflexivity |]. right. by eexists.
Defined.

(** ** The retries of [save], for any number of them *)

Lemma sleeps_app evs evs' : sleeps (evs ++ evs') = (sleeps evs ++ sleeps evs')%list.
Proof. unfold sleeps. apply omap_app. Qed.

Lemma console_entries_app evs evs' :
  console_entries (evs ++ evs')
    = (console_entries evs + console_entries evs')%nat.
Proof. unfold console_entries. by rewrite List.filter_app, length_app. Qed.

Lemma failed_attempts_nil req i : failed_attempts req i 0 [].
Proof. by repeat split. Qed.

(** One more failure in front. *)
Lemma failed_attempts_cons req i k res pre :
  req_method req = POST →
  (∃ e, write_outcome res = inl e) →
  failed_attempts req (i + 1) k pre →
  failed_attempts req i (S k)
    (EvFetch req res :: EvSleep (500 * (i + 1)) :: pre).
Proof.
  intros Hpost [e He] (Hreq & Hsleep & Hwrites & Hlogs & Hlen).
  repeat split.
  - cbn. by rewrite <- Hreq.
  - change (sleeps (EvFetch req res :: EvSleep (500 * (i + 1)) :: pre))
      with (500 * (i + 1) :: sleeps pre).
    rewrite Hsleep. cbn [seq List.map].
    replace (500 * (i + Z.of_nat 1)) with (500 * (i + 1)) by lia.
    apply (f_equal (cons _)).
    rewrite <- (seq_shift k 1), List.map_map.
    apply List.map_ext. intros j. lia.
  - assert (Hfailed : is_write (EvFetch req res) = false).
    { unfold is_write. destruct req; cbn in Hpost. subst. by rewrite He. }
    by rewrite !writes_cons, Hwrites, Hfailed.
  - unfold console_entries in *. cbn. exact Hlogs.
  - cbn. rewrite Hlen. lia.
Qed.

Section SaveShape.

Variable respond : list event → request → fetch_result.

(** The loop of [save], whatever the server does: it returns after a
    first success, or throws after its last turn. *)
Lemma save_loop_shape table items retries n :
  ∀ i w,
    Z.of_nat n = retries + 1 - i →
    let req := API.save_request table items in
    let run := API.save_loop respond table items retries n i w in
    match run.2 with
    | inr v =>
        (n = 0%nat ∧ run.1 = w ∧ v = VUndef)
        ∨ ∃ k pre,
            (k < n)%nat ∧ failed_attempts req i k pre
            ∧ run.1 = after w (pre ++ [EvFetch req
                                  (respond (trace w ++ pre) req)])
            ∧ write_outcome (respond (trace w ++ pre) req) = inr v
    | inl e =>
        ∃ k pre,
          n = S k ∧ failed_attempts req i k pre
          ∧ run.1 = after w (pre ++ [EvFetch req
                                (respond (trace w ++ pre) req);
                              EvConsole LogError
                                (API.save_failed_message table retries)
                                (Some e)])
          ∧ write_outcome (respond (trace w ++ pre) req) = inl e
    end.
Proof.
  induction n as [| n IH]; intros i w Hturns req run; subst run.
  - cbn. by left.
  - rewrite save_loop_step. cbv zeta. fold req.
    destruct (write_outcome (respond (trace w) req)) as [e | v] eqn:Hout.
    + destruct (i =? retries) eqn:Hlast.
      * apply Z.eqb_eq in Hlast. cbn [fst snd].
        exists 0%nat, []. rewrite app_nil_r. cbn [app].
        split; [lia |]. split; [apply failed_attempts_nil |].
        split; [reflexivity | exact Hout].
      * apply Z.eqb_neq in Hlast.
        set (w1 := after w [EvFetch req (respond (trace w) req);
                            EvSleep (500 * (i + 1))]).
        specialize (IH (i + 1) w1 ltac:(lia)). cbv zeta in IH. fold req in IH.
        destruct (API.save_loop respond table items retries n (i + 1) w1)
          as [w' [e' | v]]; cbn [fst snd] in *.
        -- destruct IH as (k & pre & -> & Hpre & -> & Hlastout).
           exists (S k), (EvFetch req (respond (trace w) req)
                          :: EvSleep (500 * (i + 1)) :: pre).
           split; [done |].
           split; [apply failed_attempts_cons; eauto |].
           subst w1. rewrite after_after. cbn [after trace] in *.
           rewrite <- (app_assoc (trace w) [_; _] pre) in *.
           split; [reflexivity | exact Hlastout].
        -- destruct IH as [(-> & _) | (k & pre & Hk & Hpre & -> & Hlastout)];
             [lia |]. right.
           exists (S k), (EvFetch req (respond (trace w) req)
                          :: EvSleep (500 * (i + 1)) :: pre).
           split; [lia |].
           split; [apply failed_attempts_cons; eauto |].
           subst w1. rewrite after_after. cbn [after trace] in *.
           rewrite <- (app_assoc (trace w) [_; _] pre) in *.
           split; [reflexivity | exact Hlastout].
    + cbn [fst snd]. right. exists 0%nat, []. rewrite app_nil_r.
      split; [lia |]. split; [apply failed_attempts_nil |].
      split; [reflexivity | exact Hout].
Qed.

Lemma backoff_from_zero k :
  List.map (fun j => 500 * (0 + Z.of_nat j)) (seq 1 k) = backoff k.
Proof. unfold backoff. apply List.map_ext. intros j. f_equal. Qed.

Lemma save_throw_shape table items retries w w' e :
  API.save respond table items retries w = (w', inl e) →
  let req := API.save_request table items in
  ∃ pre,
    0 <= retries
    ∧ requests pre = replicate (Z.to_nat retries) req
    ∧ sleeps pre = backoff (Z.to_nat retries)
    ∧ writes pre = 0%nat
    ∧ List.length pre = (2 * Z.to_nat retries)%nat
    ∧ write_outcome (respond (trace w ++ pre) req) = inl e
    ∧ w' = after w (pre ++ [EvFetch req (respond (trace w ++ pre) req);
                            EvConsole LogError
                              (API.save_failed_message table retries)
                              (Some e)]).
Proof.
  intros Hrun req. unfold API.save in Hrun.
  destruct (Z_lt_le_dec retries 0) as [Hneg | Hpos].
  { replace (Z.to_nat (retries + 1)) with 0%nat in Hrun by lia. done. }
  pose proof (save_loop_shape table items retries (Z.to_nat (retries + 1))
                0 w ltac:(lia)) as Hshape.
  cbv zeta in Hshape. rewrite Hrun in Hshape. cbn [fst snd] in Hshape.
  destruct Hshape as (k & pre & Hk & (Hreq & Hsleep & Hwrites & _ & Hlen)
                      & -> & Hout).
  fold req in Hreq, Hout.
  assert (k = Z.to_nat retries) as -> by lia.
  exists pre. rewrite backoff_from_zero in Hsleep. by repeat split.
Qed.


(** X4 — [save] throws only when its last allowed attempt has failed:
    by then it has made exactly [retries + 1] requests, all the same
    [POST], each answered by a failure, with a pause of 500 ms times its
    rank after each failure but the last; it logs once and throws the
    error of the last attempt. *)
Theorem save_throws_after_all_attempts table items retries w w' e :
  API.save respond table items retries w = (w', inl e) →
  let req := API.save_request table items in
  ∃ pre,
    0 <= retries
    ∧ requests pre = replicate (Z.to_nat retries) req
    ∧ sleeps pre = backoff (Z.to_nat retries)
    ∧ writes pre = 0%nat
    ∧ List.length pre = (2 * Z.to_nat retries)%nat
    ∧ write_outcome (respond (trace w ++ pre) req) = inl e
    ∧ w' = after w (pre ++ [EvFetch req (respond (trace w ++ pre) req);
                            EvConsole LogError
                              (API.save_failed_message table retries)
                              (Some e)]).
Proof. apply save_throw_shape. Qed.


(** A save that is acknowledged at once. *)
Lemma save_acknowledged table items retries w v :
  0 <= retries →
  write_outcome (respond (trace w) (API.save_request table items)) = inr v →
  API.save respond table items retries w =
    (after w [EvFetch (API.save_request table items)
                (respond (trace w) (API.save_request table items))],
     inr v).
Proof.
  intros Hretries Hout. unfold API.save.
  destruct (Z.to_nat (retries + 1)) as [| n] eqn:Hn; [lia |].
  rewrite save_loop_step. cbv zeta. by rewrite Hout.
Qed.

(** Every call of [save] that tries at all starts with its request, and
    makes no other request than that one, once for each turn at most. *)
Lemma save_loop_requests table items retries n :
  ∀ i w, ∃ evs r k,
    API.save_loop respond table items retries n i w = (after w evs, r)
    ∧ requests evs = replicate k (API.save_request table items)
    ∧ (k ≤ n)%nat
    ∧ (n ≠ 0%nat →
       ∃ rest, evs = EvFetch (API.save_request table items)
                       (respond (trace w) (API.save_request table items))
                     :: rest).
Proof.
  induction n as [| n IH]; intros i w.
  - exists [], (inr VUndef), 0%nat. by rewrite after_nil.
  - rewrite save_loop_step. cbv zeta.
    destruct (write_outcome _) as [e | v].
    + destruct (i =? retries).
      * eexists _, _, 1%nat. split; [reflexivity |]. split; [done |].
        split; [lia |]. intros _. by eexists.
      * match goal with
        | |- context [API.save_loop _ _ _ _ n (i + 1) ?w1] =>
            destruct (IH (i + 1) w1) as (evs & r & k & Hrun & Hreq & Hk & _)
        end.
        rewrite Hrun, after_after.
        eexists _, r, (S k). split; [reflexivity |]. split.
        -- cbn. by rewrite <- Hreq.
        -- split; [lia |]. intros _. by eexists.
    + eexists _, _, 1%nat. split; [reflexivity |]. split; [done |].
      split; [lia |]. intros _. by eexists.
Qed.

End SaveShape.

Lemma save_throws_after_all_attempts_witness :
  let req := API.save_request "waiters" empty_array in
  let w := fresh_world in
  let w' := (API.save (respond_after 5) "waiters" empty_array 4 w).1 in
  ∃ pre,
    0 <= 4
    ∧ requests pre = replicate (Z.to_nat 4) req
    ∧ sleeps pre = backoff (Z.to_nat 4)
    ∧ writes pre = 0%nat
    ∧ List.length pre = (2 * Z.to_nat 4)%nat
    ∧ write_outcome (respond_after 5 (trace w ++ pre) req)
      = inl (NetworkError "Failed to fetch")
    ∧ w' = after w (pre ++ [EvFetch req (respond_after 5 (trace w ++ pre) req);
                            EvConsole LogError
                              (API.save_failed_message "waiters" 4)
                              (Some (NetworkError "Failed to fetch"))]).
Proof.
  intros req w w'.
  apply (save_throws_after_all_attempts (respond_after 5) "waiters"
           empty_array 4 w w' (NetworkError "Failed to fetch")).
  vm_compute. reflexivity.
Defined.


Lemma events_of_trace {A} (m : M A) w evs :
  trace (m w).1 = trace w ++ evs → events_of m w = evs.
Proof. intros H. unfold events_of. by rewrite H, drop_app_length. Qed.

(** ** What a computation is confined to *)

Section Confined.

Context {E : event → Prop} {R : World → World → Prop}.
Hypothesis R_refl : ∀ w, R w w.
Hypothesis R_trans : ∀ w1 w2 w3, R w1 w2 → R w2 w3 → R w1 w3.
Hypothesis R_log : ∀ w evs, R w (after w evs).

Lemma confined_value {A} (r : exn + A) : confined E R (lift r).
Proof. intros w. exists []. by rewrite app_nil_r. Qed.

Lemma confined_ret {A} (a : A) : confined E R (ret a).
Proof. apply (confined_value (inr a)). Qed.

Lemma confined_throw {A} (e : exn) : confined E R (throw (A:=A) e).
Proof. apply (confined_value (inl e)). Qed.

Lemma confined_get_app : confined E R get_app.
Proof. intros w. exists []. by rewrite app_nil_r. Qed.

Lemma confined_emit ev : E ev → confined E R (emit ev).
Proof.
  intros Hev w. exists [ev]. split; [done |].
  split; [by constructor | apply (R_log w [ev])].
Qed.

Lemma confined_modify_app f :
  (∀ w, R w (mkWorld (f (app w)) (trace w) (ids w))) →
  confined E R (modify_app f).
Proof.
  intros Hf w. exists []. rewrite app_nil_r. by repeat split.
Qed.

Lemma confined_bind {A B} (m : M A) (k : A → M B) :
  confined E R m → (∀ a, confined E R (k a)) → confined E R (bind m k).
Proof.
  intros Hm Hk w. destruct (Hm w) as (evs & Htrace & Hevs & HR).
  unfold bind. destruct (m w) as [w1 [e | a]]; cbn [fst] in *.
  - by exists evs.
  - destruct (Hk a w1) as (evs' & Htrace' & Hevs' & HR').
    exists (evs ++ evs'). rewrite Htrace', Htrace, app_assoc.
    split; [done |]. split; [by apply Forall_app | by eapply R_trans].
Qed.

Lemma confined_try_catch {A} (m : M A) (h : exn → M A) :
  confined E R m → (∀ e, confined E R (h e)) → confined E R (try_catch m h).
Proof.
  intros Hm Hh w. destruct (Hm w) as (evs & Htrace & Hevs & HR).
  unfold try_catch. destruct (m w) as [w1 [e | a]]; cbn [fst] in *.
  - destruct (Hh e w1) as (evs' & Htrace' & Hevs' & HR').
    exists (evs ++ evs'). rewrite Htrace', Htrace, app_assoc.
    split; [done |]. split; [by apply Forall_app | by eapply R_trans].
  - by exists evs.
Qed.

Lemma confined_fetch respond req :
  (∀ res, E (EvFetch req res)) → confined E R (API.fetch respond req).
Proof.
  intros Hreq w. exists [EvFetch req (respond (trace w) req)].
  unfold API.fetch.
  destruct (respond (trace w) req); cbn [fst trace];
    (split; [done |]); (split; [by constructor |]); apply (R_log w [_]).
Qed.

End Confined.

(** ** The initial load, whatever the server does *)

Section LoadAlways.

Variable respond : list event → request → fetch_result.
Variable ToNumber_positive : value → exn + bool.

Lemma same_flag_and_ids_refl w : same_flag_and_ids w w.
Proof. done. Qed.

Lemma same_flag_and_ids_trans w1 w2 w3 :
  same_flag_and_ids w1 w2 → same_flag_and_ids w2 w3 → same_flag_and_ids w1 w3.
Proof. intros [? ?] [? ?]. split; congruence. Qed.

Lemma same_flag_and_ids_log w evs : same_flag_and_ids w (after w evs).
Proof. done. Qed.

Lemma is_read_table table res :
  table ∈ tables → is_read (EvFetch (API.getAll_request table) res).
Proof. intros Hin. by exists table. Qed.

Lemma confined_getAll table :
  table ∈ tables →
  confined is_read same_flag_and_ids (API.getAll respond table).
Proof.
  intros Hin. unfold API.getAll.
  apply confined_try_catch;
    try apply same_flag_and_ids_trans.
  - apply confined_bind; try apply same_flag_and_ids_trans.
    + apply confined_fetch; [apply same_flag_and_ids_log |].
      intros res. by apply is_read_table.
    + intros r. destruct (negb (ok r)).
      * apply confined_throw, same_flag_and_ids_refl.
      * unfold API.response_json. destruct (json r).
        -- apply confined_bind; try apply same_flag_and_ids_trans.
           ++ apply confined_ret, same_flag_and_ids_refl.
           ++ intros a. apply confined_ret, same_flag_and_ids_refl.
        -- apply confined_bind; try apply same_flag_and_ids_trans.
           ++ apply confined_throw, same_flag_and_ids_refl.
           ++ intros a. apply confined_ret, same_flag_and_ids_refl.
  - intros e. apply confined_bind; try apply same_flag_and_ids_trans.
    + by apply confined_emit; [apply same_flag_and_ids_log |].
    + intros _. apply confined_throw, same_flag_and_ids_refl.
Qed.

Ltac table_listed := unfold tables; by repeat constructor.

(** X6 — Whatever the server answers, [loadInitialData] does nothing but
    read the six tables and write to the console: every request it makes
    is the [GET] of one of them, it never pauses, and it changes neither
    the connectivity flag nor the count of identifiers drawn. *)
Theorem loadInitialData_only_reads w :
  let w' := (loadInitialData respond ToNumber_positive w).1 in
  ∃ evs,
    trace w' = trace w ++ evs
    ∧ Forall is_read evs
    ∧ isOnline (app w') = isOnline (app w)
    ∧ ids w' = ids w.
Proof.
  cbv zeta.
  assert (Hload : confined is_read same_flag_and_ids
                    (loadInitialData respond ToNumber_positive)).
  { assert (Hstore : ∀ f : AppState → AppState,
              (∀ s, isOnline (f s) = isOnline s) →
              confined is_read same_flag_and_ids (modify_app f)).
    { intros f Hf. apply confined_modify_app. intros w0. split; [apply Hf | done]. }
    assert (Hfetch : ∀ table (k : value → M unit),
              table ∈ tables →
              (∀ v, confined is_read same_flag_and_ids (k v)) →
              confined is_read same_flag_and_ids
                (bind (API.getAll respond table) k)).
    { intros table k Hin Hk.
      apply confined_bind;
        [apply same_flag_and_ids_trans | by apply confined_getAll | exact Hk]. }
    assert (Hthen : ∀ (m k : M unit),
              confined is_read same_flag_and_ids m →
              confined is_read same_flag_and_ids k →
              confined is_read same_flag_and_ids (bind m (fun _ => k))).
    { intros m k Hm Hk.
      by apply confined_bind; [apply same_flag_and_ids_trans | |]. }
    unfold loadInitialData.
    apply confined_try_catch; [apply same_flag_and_ids_trans | |].
    - apply Hfetch; [table_listed |]. intros m.
      apply Hthen; [by apply Hstore |].
      apply Hfetch; [table_listed |]. intros o.
      apply Hthen; [by apply Hstore |].
      apply Hfetch; [table_listed |]. intros t.
      apply Hthen; [by apply Hstore |].
      apply Hfetch; [table_listed |]. intros wa.
      apply Hthen; [by apply Hstore |].
      apply Hthen.
      + apply confined_try_catch; [apply same_flag_and_ids_trans | |].
        * apply Hfetch; [table_listed |]. intros c. by apply Hstore.
        * intros _. apply Hthen; [| by apply Hstore].
          by apply confined_emit; [apply same_flag_and_ids_log |].
      + apply Hfetch; [table_listed |]. intros configArray.
        apply confined_bind; [apply same_flag_and_ids_trans | |].
        * unfold first_or_empty, length_of.
          apply confined_bind; [apply same_flag_and_ids_trans | |].
          -- destruct (nullish configArray);
               [apply confined_throw | apply confined_ret];
               apply same_flag_and_ids_refl.
          -- intros len.
             apply confined_bind; [apply same_flag_and_ids_trans | |].
             ++ apply confined_value, same_flag_and_ids_refl.
             ++ intros [|]; apply confined_ret, same_flag_and_ids_refl.
        * intros c. by apply Hstore.
    - intros e. apply Hthen.
      + by apply confined_emit; [apply same_flag_and_ids_log |].
      + apply confined_throw, same_flag_and_ids_refl. }
  destruct (Hload w) as (evs & Htrace & Hevs & Hflag & Hids).
  by exists evs.
Qed.

End LoadAlways.

(** ** The initial load, step by step *)

Section LoadSteps.

Variable respond : list event → request → fetch_result.
Variable ToNumber_positive : value → exn + bool.

(** The last statement of a block: fetch, then store. *)
Lemma fetch_store table v (f : value → AppState → AppState) w :
  serves respond table v →
  bind (API.getAll respond table) (fun v => modify_app (f v)) w =
    (fetched table (respond (trace w) (API.getAll_request table)) (f v) w,
     inr tt).
Proof. intros H. by rewrite (getAll_then _ _ _ _ _ H). Qed.


Ltac step_world w1 r1 Happ Htrace Hids :=
  match goal with
  | |- context [fetched ?tb ?res ?f ?w0] =>
      remember res as r1 eqn:Hres in |- *; clear Hres;
      remember (fetched tb r1 f w0) as w1 eqn:Hw;
      assert (Happ : app w1 = f (app w0)) by (by rewrite Hw);
      assert (Htrace : trace w1
                       = trace w0 ++ [EvFetch (API.getAll_request tb) r1])
        by (by rewrite Hw);
      assert (Hids : ids w1 = ids w0) by (by rewrite Hw);
      clear Hw
  end.

(** X7 — When the six tables are served, [loadInitialData] completes
    after exactly six requests, the reads of [menu_items], [orders],
    [transactions], [waiters], [cash_closures] and [config] in this order,
    without a log entry; [AppState] then holds the six bodies as they
    came ([config] being the first element of its array, or [{}]), and the
    connectivity flag and the count of identifiers are as before. *)
Theorem loadInitialData_all_served m o t wa cc c x w :
  serves respond "menu_items" m →
  serves respond "orders" o →
  serves respond "transactions" t →
  serves respond "waiters" wa →
  serves respond "cash_closures" cc →
  serves respond "config" (VArr c x) →
  let load := loadInitialData respond ToNumber_positive in
  (load w).2 = inr tt
  ∧ app (load w).1 =
      mkAppState m o t wa
        (match c with first :: _ => first | [] => empty_object end)
        cc (isOnline (app w))
  ∧ ids (load w).1 = ids w
  ∧ requests (events_of load w) = List.map API.getAll_request tables
  ∧ console_entries (events_of load w) = 0%nat.
Proof.
  intros Hm Ho Ht Hwa Hcc Hc load.
  assert (Hrun : ∃ r1 r2 r3 r4 r5 r6,
    load w =
      (mkWorld
         (mkAppState m o t wa
            (match c with first :: _ => first | [] => empty_object end)
            cc (isOnline (app w)))
         (trace w ++ [EvFetch (API.getAll_request "menu_items") r1;
                      EvFetch (API.getAll_request "orders") r2;
                      EvFetch (API.getAll_request "transactions") r3;
                      EvFetch (API.getAll_request "waiters") r4;
                      EvFetch (API.getAll_request "cash_closures") r5;
                      EvFetch (API.getAll_request "config") r6])
         (ids w),
       inr tt)).
  { subst load. unfold loadInitialData, try_catch at 1.
    unfold set_menuItems, set_orders, set_transactions, set_waiters,
      set_cashClosures.
    rewrite (fetch_store_then respond "menu_items" m with_menuItems)
      by exact Hm.
    step_world w1 r1 Happ1 Htrace1 Hids1.
    rewrite (fetch_store_then respond "orders" o with_orders) by exact Ho.
    step_world w2 r2 Happ2 Htrace2 Hids2.
    rewrite (fetch_store_then respond "transactions" t with_transactions)
      by exact Ht.
    step_world w3 r3 Happ3 Htrace3 Hids3.
    rewrite (fetch_store_then respond "waiters" wa with_waiters) by exact Hwa.
    step_world w4 r4 Happ4 Htrace4 Hids4.
    unfold try_catch at 1. unfold bind at 1.
    rewrite (fetch_store "cash_closures" cc with_cashClosures) by exact Hcc.
    step_world w5 r5 Happ5 Htrace5 Hids5.
    rewrite (getAll_then respond _ _ _ _ Hc).
    unfold bind at 1. rewrite first_or_empty_array.
    unfold set_config, modify_app. cbn [app trace ids after].
    exists r1, r2, r3, r4, r5,
      (respond (trace w5) (API.getAll_request "config")).
    rewrite Happ5, Happ4, Happ3, Happ2, Happ1.
    rewrite Htrace5, Htrace4, Htrace3, Htrace2, Htrace1.
    rewrite Hids5, Hids4, Hids3, Hids2, Hids1.
    rewrite <- !app_assoc. reflexivity. }
  destruct Hrun as (r1 & r2 & r3 & r4 & r5 & r6 & Hrun).
  rewrite (events_of_trace load w _ (f_equal (fun r => trace r.1) Hrun)), Hrun.
  by repeat split.
Qed.

Lemma first_or_empty_null w :
  first_or_empty ToNumber_positive VNull w =
    (w, inl (TypeError "Cannot read properties of null (reading 'length')")).
Proof. reflexivity. Qed.


(** X9 — The load can fail with every fetch answered: when the body of
    [config] is [null], reading its [length] throws a [TypeError], which
    [loadInitialData] logs and throws after its six requests; the five
    collections are replaced by then and [AppState.config] is as it was. *)
Theorem loadInitialData_null_config m o t wa cc w :
  serves respond "menu_items" m →
  serves respond "orders" o →
  serves respond "transactions" t →
  serves respond "waiters" wa →
  serves respond "cash_closures" cc →
  serves respond "config" VNull →
  let load := loadInitialData respond ToNumber_positive in
  let error := TypeError "Cannot read properties of null (reading 'length')" in
  (load w).2 = inl error
  ∧ app (load w).1 =
      mkAppState m o t wa (config (app w)) cc (isOnline (app w))
  ∧ requests (events_of load w) = List.map API.getAll_request tables
  ∧ List.filter is_console (events_of load w)
    = [EvConsole LogError "Error cargando datos iniciales:" (Some error)].
Proof.
  intros Hm Ho Ht Hwa Hcc Hc load error.
  assert (Hrun : ∃ r1 r2 r3 r4 r5 r6,
    load w =
      (mkWorld
         (mkAppState m o t wa (config (app w)) cc (isOnline (app w)))
         (trace w ++ [EvFetch (API.getAll_request "menu_items") r1;
                      EvFetch (API.getAll_request "orders") r2;
                      EvFetch (API.getAll_request "transactions") r3;
                      EvFetch (API.getAll_request "waiters") r4;
                      EvFetch (API.getAll_request "cash_closures") r5;
                      EvFetch (API.getAll_request "config") r6;
                      EvConsole LogError "Error cargando datos iniciales:"
                        (Some error)])
         (ids w),
       inl error)).
  { subst load. unfold loadInitialData, try_catch at 1.
    unfold set_menuItems, set_orders, set_transactions, set_waiters,
      set_cashClosures.
    rewrite (fetch_store_then respond "menu_items" m with_menuItems)
      by exact Hm.
    step_world w1 r1 Happ1 Htrace1 Hids1.
    rewrite (fetch_store_then respond "orders" o with_orders) by exact Ho.
    step_world w2 r2 Happ2 Htrace2 Hids2.
    rewrite (fetch_store_then respond "transactions" t with_transactions)
      by exact Ht.
    step_world w3 r3 Happ3 Htrace3 Hids3.
    rewrite (fetch_store_then respond "waiters" wa with_waiters) by exact Hwa.
    step_world w4 r4 Happ4 Htrace4 Hids4.
    unfold try_catch at 1. unfold bind at 1.
    rewrite (fetch_store "cash_closures" cc with_cashClosures) by exact Hcc.
    step_world w5 r5 Happ5 Htrace5 Hids5.
    rewrite (getAll_then respond _ _ _ _ Hc).
    exists r1, r2, r3, r4, r5,
      (respond (trace w5) (API.getAll_request "config")).
    rewrite (bind_inl _ _ _ _ _ (first_or_empty_null _)).
    unfold bind, console_error, emit, throw. cbn [after app trace ids].
    rewrite Happ5, Happ4, Happ3, Happ2, Happ1.
    rewrite Htrace5, Htrace4, Htrace3, Htrace2, Htrace1.
    rewrite Hids5, Hids4, Hids3, Hids2, Hids1.
    rewrite <- !app_assoc. reflexivity. }
  destruct Hrun as (r1 & r2 & r3 & r4 & r5 & r6 & Hrun).
  rewrite (events_of_trace load w _ (f_equal (fun r => trace r.1) Hrun)), Hrun.
  by repeat split.
Qed.


End LoadSteps.

Lemma loadInitialData_all_served_witness :
  let load := loadInitialData (sample_backend "" []) (fun _ => inr false) in
  let w := fresh_world in
  (load w).2 = inr tt
  ∧ app (load w).1 =
      mkAppState empty_array empty_array empty_array empty_array
        empty_object empty_array (isOnline (app w))
  ∧ ids (load w).1 = ids w
  ∧ requests (events_of load w) = List.map API.getAll_request tables
  ∧ console_entries (events_of load w) = 0%nat.
Proof.
  intros load w.
  apply (loadInitialData_all_served (sample_backend "" []) (fun _ => inr false)
           empty_array empty_array empty_array empty_array empty_array [] ∅ w).
  - exact (sample_backend_serves "" [] "menu_items" eq_refl).
  - exact (sample_backend_serves "" [] "orders" eq_refl).
  - exact (sample_backend_serves "" [] "transactions" eq_refl).
  - exact (sample_backend_serves "" [] "waiters" eq_refl).
  - exact (sample_backend_serves "" [] "cash_closures" eq_refl).
  - exact (sample_backend_serves "" [] "config" eq_refl).
Defined.



Lemma loadInitialData_null_config_witness :
  let load := loadInitialData respond_null_config (fun _ => inr false) in
  let w := fresh_world in
  let error := TypeError "Cannot read properties of null (reading 'length')" in
  (load w).2 = inl error
  ∧ app (load w).1 =
      mkAppState empty_array empty_array empty_array empty_array
        (config (app w)) empty_array (isOnline (app w))
  ∧ requests (events_of load w) = List.map API.getAll_request tables
  ∧ List.filter is_console (events_of load w)
    = [EvConsole LogError "Error cargando datos iniciales:" (Some error)].
Proof.
  intros load w error.
  apply (loadInitialData_null_config respond_null_config (fun _ => inr false)
           empty_array empty_array empty_array empty_array empty_array w);
    intros history; reflexivity.
Defined.

(** ** Seeding *)

Section Seeding.

Variable respond : list event → request → fetch_result.
Variable generateId_at : nat → string.

(** The first statement on a menu of length zero: three identifiers are
    drawn, the example records installed, and their save started. *)
Lemma initializeMenuItems_seeding w :
  has_zero_length (menuItems (app w)) = true →
  initializeMenuItems respond generateId_at w =
    bind (API.save respond "menu_items" (seeded_menu generateId_at (ids w)) 2)
         (fun _ => ret tt)
         (mkWorld (with_menuItems (seeded_menu generateId_at (ids w)) (app w))
                  (trace w) (S (S (S (ids w))))).
Proof.
  intros Hzero. apply andb_true_iff in Hzero as [Hnull Hlen].
  apply negb_true_iff in Hnull.
  unfold initializeMenuItems, get_app, length_of. unfold bind at 1 2.
  rewrite Hnull. cbn [ret]. rewrite Hlen. reflexivity.
Qed.

Lemma initializeWaiters_seeding w :
  has_zero_length (waiters (app w)) = true →
  initializeWaiters respond generateId_at w =
    bind (API.save respond "waiters" (seeded_waiters generateId_at (ids w)) 2)
         (fun _ => ret tt)
         (mkWorld (with_waiters (seeded_waiters generateId_at (ids w)) (app w))
                  (trace w) (S (S (ids w)))).
Proof.
  intros Hzero. apply andb_true_iff in Hzero as [Hnull Hlen].
  apply negb_true_iff in Hnull.
  unfold initializeWaiters, get_app, length_of. unfold bind at 1 2.
  rewrite Hnull. cbn [ret]. rewrite Hlen. reflexivity.
Qed.

Lemma initializeMenuItems_not_an_array w :
  isArray (menuItems (app w)) = false →
  has_zero_length (menuItems (app w)) = false →
  ∃ message,
    initializeMenuItems respond generateId_at w
      = (w, inl (TypeError message)).
Proof.
  intros Harray Hzero.
  unfold initializeMenuItems, get_app, length_of.
  unfold bind at 1 2. unfold has_zero_length in Hzero.
  destruct (nullish (menuItems (app w))) eqn:Hnull.
  - by eexists.
  - cbn [negb andb] in Hzero. cbn [ret]. rewrite Hzero.
    destruct (menuItems (app w)); try done; by eexists.
Qed.

(** X11 — On a page where both the menu and the waiters have length zero
    and with a server that acknowledges saves, [initializeDefaultData]
    draws five identifiers in order (three for the menu, then two for the
    waiters), installs the three example records and the two default
    waiters, and makes exactly two requests: the save of the menu it
    installed, then the save of the waiters it installed. *)
Theorem initializeDefaultData_seeds_both w :
  acknowledges respond →
  has_zero_length (menuItems (app w)) = true →
  has_zero_length (waiters (app w)) = true →
  let menu := seeded_menu generateId_at (ids w) in
  let staff := seeded_waiters generateId_at (ids w + 3) in
  ∃ r1 r2,
    initializeDefaultData respond generateId_at w =
      (mkWorld (with_waiters staff (with_menuItems menu (app w)))
         (trace w ++ [EvFetch (API.save_request "menu_items" menu) r1;
                      EvFetch (API.save_request "waiters" staff) r2])
         (ids w + 5),
       inr tt).
Proof.
  intros Hack Hmenu Hwaiters menu staff.
  unfold initializeDefaultData. unfold bind at 1.
  rewrite (initializeMenuItems_seeding w Hmenu). fold menu.
  set (w1 := mkWorld (with_menuItems menu (app w)) (trace w)
                     (S (S (S (ids w))))).
  destruct (Hack (trace w1) "menu_items" menu) as [v1 Hv1].
  rewrite (bind_ret_tt _ _ _ _
             (save_acknowledged respond "menu_items" menu 2 w1 v1
                ltac:(lia) Hv1)).
  set (w2 := after w1 _).
  rewrite (initializeWaiters_seeding w2 Hwaiters).
  replace (ids w2) with (ids w + 3)%nat by (cbn; lia). fold staff.
  set (w3 := mkWorld (with_waiters staff (app w2)) (trace w2) _).
  destruct (Hack (trace w3) "waiters" staff) as [v2 Hv2].
  rewrite (bind_ret_tt _ _ _ _
             (save_acknowledged respond "waiters" staff 2 w3 v2
                ltac:(lia) Hv2)).
  eexists _, _. unfold after. cbn [app trace ids w3 w2 w1 after].
  rewrite <- app_assoc. do 2 f_equal. lia.
Qed.

(** X12 — When the save of the example records keeps failing, the call
    throws after the three attempts and their pauses of 500 and 1000 ms:
    the records stay installed in [AppState] though the server never took
    them, and the waiters are not looked at, so none is installed and no
    request concerns them. *)
Theorem initializeDefaultData_seed_save_refused w :
  refuses respond "menu_items" →
  has_zero_length (menuItems (app w)) = true →
  let first := initializeDefaultData respond generateId_at in
  let menu := seeded_menu generateId_at (ids w) in
  ∃ e,
    (first w).2 = inl e
    ∧ app (first w).1 = with_menuItems menu (app w)
    ∧ ids (first w).1 = (ids w + 3)%nat
    ∧ requests (events_of first w)
      = replicate 3 (API.save_request "menu_items" menu)
    ∧ sleeps (events_of first w) = [500; 1000].
Proof.
  intros Hrefused Hmenu first menu. subst first.
  unfold events_of, initializeDefaultData. unfold bind at 1 2 3 4 5.
  rewrite (initializeMenuItems_seeding w Hmenu). fold menu.
  set (w1 := mkWorld (with_menuItems menu (app w)) (trace w)
                     (S (S (S (ids w))))).
  destruct (save_persistent_failure respond "menu_items" menu 2 w1
              ltac:(lia) (fun history => Hrefused history menu))
    as (evs & e & Hsave & _).
  destruct (save_throw_shape respond _ _ _ _ _ _ Hsave)
    as (pre & _ & Hreq & Hsleep & _ & _ & _ & Hshape).
  rewrite (bind_ret_tt _ _ _ _ Hsave). cbn [fst snd].
  exists e. split; [done |]. split; [done |]. split; [cbn; lia |].
  apply (f_equal trace) in Hshape. cbn [after trace] in Hshape.
  apply app_inv_head in Hshape.
  cbn [fst after trace w1]. rewrite drop_app_length, Hshape.
  rewrite requests_app, sleeps_app, Hreq, Hsleep. by split.
Qed.

(** X13 — The example records are saved a second time: after a call that
    installed them, whether their save went through or not, the next call
    finds them without [images], gives each an empty image list, and
    starts with the save of the three records so completed. *)
Theorem initializeDefaultData_saves_seeds_again w :
  has_zero_length (menuItems (app w)) = true →
  let first := initializeDefaultData respond generateId_at in
  let w1 := (first w).1 in
  ∃ items,
    menu_of (first w1).1 = items
    ∧ List.length items = 3%nat
    ∧ Forall (fun item => get_prop item "images" = empty_array) items
    ∧ head (requests (events_of first w1))
      = Some (API.save_request "menu_items" (VArr items ∅)).
Proof.
  intros Hmenu first w1.
  (* the menu after the first call *)
  assert (Hseeded : menuItems (app w1) = seeded_menu generateId_at (ids w)).
  { subst w1 first. unfold initializeDefaultData. unfold bind at 1.
    rewrite (initializeMenuItems_seeding w Hmenu).
    set (w0 := mkWorld (with_menuItems (seeded_menu generateId_at (ids w))
                          (app w)) (trace w) (S (S (S (ids w))))).
    destruct (save_events respond "menu_items"
                (seeded_menu generateId_at (ids w)) 2 w0)
      as (evs & r & Hsave & _).
    rewrite (bind_ret_tt _ _ _ _ Hsave).
    destruct r as [e | v]; [done |].
    destruct (initializeWaiters_events respond generateId_at (after w0 evs))
      as (evs' & app' & ids' & r' & Hrun & Hkeep & _).
    rewrite Hrun. cbn [fst app]. by rewrite Hkeep. }
  unfold seeded_menu, default_menu_items in Hseeded.
  match type of Hseeded with _ = VArr ?l _ => set (seeds := l) in * end.
  assert (Hloop : (forEach_migrate seeds false).1.2 = true
                  ∧ (forEach_migrate seeds false).2 = None
                  ∧ List.length (forEach_migrate seeds false).1.1 = 3%nat
                  ∧ Forall (fun item => get_prop item "images" = empty_array)
                           (forEach_migrate seeds false).1.1).
  { subst seeds. vm_compute. repeat split; repeat constructor. }
  destruct Hloop as (Hflag & Hdone & Hlength & Himages).
  exists (forEach_migrate seeds false).1.1.
  split.
  { apply (initializeDefaultData_menu respond generateId_at w1 seeds ∅ Hseeded).
    by subst seeds. }
  split; [exact Hlength |]. split; [exact Himages |].
  subst first. unfold events_of, initializeDefaultData. unfold bind at 1.
  rewrite (initializeMenuItems_migration respond generateId_at w1 seeds ∅
             Hseeded ltac:(by subst seeds)).
  cbv zeta. rewrite Hdone, Hflag.
  set (items := (forEach_migrate seeds false).1.1).
  set (wm := mkWorld (with_menuItems (VArr items ∅) (app w1)) (trace w1)
                     (ids w1)).
  destruct (save_loop_requests respond "menu_items" (VArr items ∅) 2 3 0 wm)
    as (evs & r & k & Hsave & _ & _ & Hfirst).
  destruct (Hfirst ltac:(done)) as [rest ->].
  change (API.save_loop respond "menu_items" (VArr items ∅) 2 3 0 wm)
    with (API.save respond "menu_items" (VArr items ∅) 2 wm) in Hsave.
  rewrite (bind_ret_tt _ _ _ _ Hsave).
  destruct r as [e | v]; cbn [fst].
  - cbn [after trace wm]. by rewrite drop_app_length.
  - destruct (initializeWaiters_events respond generateId_at
                (after wm (EvFetch (API.save_request "menu_items"
                                      (VArr items ∅))
                             (respond (trace wm)
                                (API.save_request "menu_items"
                                   (VArr items ∅))) :: rest)))
      as (evs' & app' & ids' & r' & Hrun & _).
    rewrite Hrun. cbn [fst after trace wm].
    by rewrite <- app_assoc, drop_app_length.
Qed.

(** X14 — A menu that is no array makes the call throw a [TypeError] at
    once, with nothing requested and nothing changed: [null] has no
    [length], and any other value whose [length] is not [0] has no
    [forEach]. *)
Theorem initializeDefaultData_menu_not_an_array w :
  isArray (menuItems (app w)) = false →
  has_zero_length (menuItems (app w)) = false →
  ∃ message,
    initializeDefaultData respond generateId_at w
      = (w, inl (TypeError message)).
Proof.
  intros Harray Hzero.
  destruct (initializeMenuItems_not_an_array w Harray Hzero) as [message Hrun].
  exists message. unfold initializeDefaultData, bind. by rewrite Hrun.
Qed.

End Seeding.

Lemma initializeDefaultData_seeds_both_witness :
  let w := fresh_world in
  let menu := seeded_menu sample_ids 0 in
  let staff := seeded_waiters sample_ids 3 in
  ∃ r1 r2,
    initializeDefaultData (respond_after 0) sample_ids w =
      (mkWorld (with_waiters staff (with_menuItems menu (app w)))
         (trace w ++ [EvFetch (API.save_request "menu_items" menu) r1;
                      EvFetch (API.save_request "waiters" staff) r2])
         5,
       inr tt).
Proof.
  intros w menu staff.
  apply (initializeDefaultData_seeds_both (respond_after 0) sample_ids w).
  - intros history table items. by exists VNull.
  - reflexivity.
  - reflexivity.
Defined.

Lemma initializeDefaultData_seed_save_refused_witness :
  let first := initializeDefaultData (sample_backend "menu_items" [])
                 sample_ids in
  let w := fresh_world in
  let menu := seeded_menu sample_ids 0 in
  ∃ e,
    (first w).2 = inl e
    ∧ app (first w).1 = with_menuItems menu (app w)
    ∧ ids (first w).1 = 3%nat
    ∧ requests (events_of first w)
      = replicate 3 (API.save_request "menu_items" menu)
    ∧ sleeps (events_of first w) = [500; 1000].
Proof.
  intros first w menu.
  apply (initializeDefaultData_seed_save_refused
           (sample_backend "menu_items" []) sample_ids w).
  - intros history items. by eexists.
  - reflexivity.
Defined.

Lemma initializeDefaultData_saves_seeds_again_witness :
  let first := initializeDefaultData (respond_after 0) sample_ids in
  let w1 := (first fresh_world).1 in
  ∃ items,
    menu_of (first w1).1 = items
    ∧ List.length items = 3%nat
    ∧ Forall (fun item => get_prop item "images" = empty_array) items
    ∧ head (requests (events_of first w1))
      = Some (API.save_request "menu_items" (VArr items ∅)).
Proof.
  apply (initializeDefaultData_saves_seeds_again (respond_after 0) sample_ids
           fresh_world).
  reflexivity.
Defined.

Lemma initializeDefaultData_menu_not_an_array_witness :
  ∃ message,
    initializeDefaultData respond_not_found sample_ids
      (mkWorld (with_menuItems VNull (initial_AppState true)) [] 0)
      = (mkWorld (with_menuItems VNull (initial_AppState true)) [] 0,
         inl (TypeError message)).
Proof.
  apply (initializeDefaultData_menu_not_an_array respond_not_found sample_ids
           (mkWorld (with_menuItems VNull (initial_AppState true)) [] 0));
    reflexivity.
Defined.

(** ** What the migration leaves alone *)

Lemma has_delete_ne v k k' :
  k ≠ k' → has_prop (delete_prop v k) k' = has_prop v k'.
Proof.
  intros Hne. destruct v; simpl; try done; by rewrite lookup_delete_ne.
Qed.

Lemma same_field_refl k item : same_field k item item.
Proof. done. Qed.

Lemma same_field_set k k' x item item' :
  k' ≠ k → same_field k item item' → same_field k item (set_prop item' k' x).
Proof.
  intros Hne [Hget Hhas]. split.
  - by rewrite get_set_ne.
  - by rewrite has_set_ne.
Qed.

Lemma same_field_delete k k' item item' :
  k' ≠ k → same_field k item item' → same_field k item (delete_prop item' k').
Proof.
  intros Hne [Hget Hhas]. split.
  - by rewrite get_delete_ne.
  - by rewrite has_delete_ne.
Qed.

(** The branches of the callback, one by one. *)
Ltac branches :=
  repeat (cbv beta iota zeta;
          match goal with
          | |- context [if ?c then _ else _] => destruct c eqn:?
          end);
  cbv beta iota zeta.

Ltac kept :=
  repeat first [ apply same_field_refl
               | apply same_field_set; [done |]
               | apply same_field_delete; [done |] ].

Lemma migrate_item_other_fields item needsUpdate k :
  k ∉ migration_fields →
  same_field k item (migrate_item item needsUpdate).1.1.
Proof.
  intros Hk.
  assert (Hcost : "cost" ≠ k) by (intros <-; apply Hk; set_solver).
  assert (Himg : "img" ≠ k) by (intros <-; apply Hk; set_solver).
  assert (Himages : "images" ≠ k) by (intros <-; apply Hk; set_solver).
  assert (Hcategory : "category" ≠ k) by (intros <-; apply Hk; set_solver).
  unfold migrate_item. branches;
    repeat match goal with
           | |- context [match ?c with VStr _ => _ | _ => _ end] =>
               destruct c eqn:?
           end;
    branches; cbn [fst]; kept.
Qed.

(** A record that is not in the legacy shape keeps its [img]. *)
Lemma migrate_item_img item needsUpdate :
  legacy_image item = false →
  same_field "img" item (migrate_item item needsUpdate).1.1.
Proof.
  intros Hlegacy. unfold legacy_image in Hlegacy.
  unfold migrate_item.
  destruct (nullish item); [done |].
  destruct (is_undefined (get_prop item "cost")); cbv beta iota zeta;
    rewrite ?get_set_ne by done; rewrite Hlegacy;
    branches;
    repeat match goal with
           | |- context [match ?c with VStr _ => _ | _ => _ end] =>
               destruct c eqn:?
           end;
    branches; cbn [fst]; kept.
Qed.

(** A property that every turn of the loop keeps holds between each
    record and what the loop leaves in its place, visited or not. *)
Lemma forEach_migrate_pointwise (P : value → value → Prop) :
  (∀ item, P item item) →
  (∀ item needsUpdate, P item (migrate_item item needsUpdate).1.1) →
  ∀ items needsUpdate,
    Forall2 P items (forEach_migrate items needsUpdate).1.1.
Proof.
  intros Hrefl Hstep items. induction items as [| item rest IH];
    intros needsUpdate; cbn [forEach_migrate].
  - constructor.
  - specialize (Hstep item needsUpdate).
    destruct (migrate_item item needsUpdate) as [[item' needsUpdate'] [e |]];
      cbn [fst] in *.
    + constructor; [done |]. by apply Forall_Forall2_diag, Forall_forall.
    + specialize (IH needsUpdate').
      destruct (forEach_migrate rest needsUpdate') as [[rest' ?] ?];
        cbn [fst] in *.
      by constructor.
Qed.

Section Untouched.

Variable respond : list event → request → fetch_result.
Variable generateId_at : nat → string.

(** X15 — The migration keeps the records in number and order, and in
    each of them every field but [cost], [img], [images] and [category]:
    whatever the server answers and wherever the loop stops, a field such
    as [id], [name] or [price] is present after the call exactly when it
    was before, with the same value. *)
Theorem initializeDefaultData_keeps_other_fields w items extra :
  menuItems (app w) = VArr items extra → items ≠ [] →
  Forall2 (fun item item' =>
             ∀ k, k ∉ migration_fields → same_field k item item')
          items
          (menu_of (initializeDefaultData respond generateId_at w).1).
Proof.
  intros Hmenu Hitems.
  rewrite (initializeDefaultData_menu respond generateId_at w items extra
             Hmenu Hitems).
  apply forEach_migrate_pointwise.
  - intros item k _. apply same_field_refl.
  - intros item needsUpdate k Hk. by apply migrate_item_other_fields.
Qed.

(** X16 — A record that has [images] already, or no usable [img], keeps
    its [img] as it is: the property is deleted only from a record in the
    legacy shape, so a record that carries both fields still carries both
    after the call. *)
Theorem initializeDefaultData_keeps_img w items extra :
  menuItems (app w) = VArr items extra → items ≠ [] →
  Forall2 (fun item item' =>
             legacy_image item = false → same_field "img" item item')
          items
          (menu_of (initializeDefaultData respond generateId_at w).1).
Proof.
  intros Hmenu Hitems.
  rewrite (initializeDefaultData_menu respond generateId_at w items extra
             Hmenu Hitems).
  apply forEach_migrate_pointwise.
  - intros item _. apply same_field_refl.
  - intros item needsUpdate Hlegacy. by apply migrate_item_img.
Qed.

End Untouched.

Lemma initializeDefaultData_keeps_other_fields_witness :
  Forall2 (fun item item' =>
             ∀ k, k ∉ migration_fields → same_field k item item')
          menu_to_migrate
          (menu_of (initializeDefaultData (respond_after 0) sample_ids
                      (world_with_menu menu_to_migrate)).1).
Proof.
  apply (initializeDefaultData_keeps_other_fields (respond_after 0) sample_ids
           (world_with_menu menu_to_migrate) menu_to_migrate ∅).
  - reflexivity.
  - discriminate.
Defined.

Lemma initializeDefaultData_keeps_img_witness :
  Forall2 (fun item item' =>
             legacy_image item = false → same_field "img" item item')
          menu_with_legacy_images
          (menu_of (initializeDefaultData (respond_after 0) sample_ids
                      (world_with_menu menu_with_legacy_images)).1).
Proof.
  apply (initializeDefaultData_keeps_img (respond_after 0) sample_ids
           (world_with_menu menu_with_legacy_images)
           menu_with_legacy_images ∅).
  - reflexivity.
  - discriminate.
Defined.

(** ** What the call sends *)

Section Footprint.

Variable respond : list event → request → fetch_result.
Variable generateId_at : nat → string.

Lemma same_but_menu_and_waiters_refl s : same_but_menu_and_waiters s s.
Proof. done. Qed.

(** The save of a collection after it was installed. *)
Lemma save_footprint table items w :
  ∃ evs r k,
    bind (API.save respond table items 2) (fun _ => ret tt) w
      = (after w evs, r)
    ∧ requests evs = replicate k (API.save_request table items)
    ∧ (k ≤ 3)%nat.
Proof.
  destruct (save_loop_requests respond table items 2 3 0 w)
    as (evs & r & k & Hsave & Hreq & Hk & _).
  change (API.save_loop respond table items 2 3 0 w)
    with (API.save respond table items 2 w) in Hsave.
  rewrite (bind_ret_tt _ _ _ _ Hsave). by eexists evs, _, k.
Qed.

Lemma initializeMenuItems_footprint w :
  ∃ evs s' ids' r k,
    initializeMenuItems respond generateId_at w
      = (mkWorld s' (trace w ++ evs) ids', r)
    ∧ requests evs
      = replicate k (API.save_request "menu_items" (menuItems s'))
    ∧ (k ≤ 3)%nat
    ∧ waiters s' = waiters (app w)
    ∧ same_but_menu_and_waiters (app w) s'.
Proof.
  destruct (has_zero_length (menuItems (app w))) eqn:Hzero.
  - rewrite (initializeMenuItems_seeding respond generateId_at w Hzero).
    match goal with
    | |- context [bind _ _ ?w1] =>
        destruct (save_footprint "menu_items"
                    (seeded_menu generateId_at (ids w)) w1)
          as (evs & r & k & -> & Hreq & Hk)
    end.
    eexists evs, _, _, r, k. split; [reflexivity |]. repeat split; first [done | lia].
  - destruct (menuItems (app w)) as [| | b | n | s | items extra | o] eqn:Hmenu.
    6: {
      assert (Hitems : items ≠ []) by (by intros ->).
      rewrite (initializeMenuItems_migration respond generateId_at w items
                 extra Hmenu Hitems).
      cbv zeta.
      destruct (forEach_migrate items false) as [[items' needsUpdate] thrown].
      cbn [fst snd].
      destruct thrown as [e |].
      - eexists [], _, _, _, 0%nat. rewrite app_nil_r.
        split; [reflexivity |]. repeat split; first [done | lia].
      - destruct needsUpdate.
        + match goal with
          | |- context [bind _ _ ?w1] =>
              destruct (save_footprint "menu_items" (VArr items' extra) w1)
                as (evs & r & k & -> & Hreq & Hk)
          end.
          eexists evs, _, _, r, k. split; [reflexivity |]. repeat split; first [done | lia].
        + eexists [], _, _, _, 0%nat. rewrite app_nil_r.
        split; [reflexivity |]. repeat split; first [done | lia]. }
    all: destruct (initializeMenuItems_not_an_array respond generateId_at w)
           as [message ->]; [by rewrite Hmenu | by rewrite Hmenu |];
         eexists [], (app w), (ids w), _, 0%nat; rewrite app_nil_r;
         (split; [by destruct w |]); repeat split; first [done | lia].
Qed.

Lemma initializeWaiters_footprint w :
  ∃ evs s' ids' r k,
    initializeWaiters respond generateId_at w
      = (mkWorld s' (trace w ++ evs) ids', r)
    ∧ requests evs = replicate k (API.save_request "waiters" (waiters s'))
    ∧ (k ≤ 3)%nat
    ∧ menuItems s' = menuItems (app w)
    ∧ same_but_menu_and_waiters (app w) s'.
Proof.
  destruct (has_zero_length (waiters (app w))) eqn:Hzero.
  - rewrite (initializeWaiters_seeding respond generateId_at w Hzero).
    match goal with
    | |- context [bind _ _ ?w1] =>
        destruct (save_footprint "waiters"
                    (seeded_waiters generateId_at (ids w)) w1)
          as (evs & r & k & -> & Hreq & Hk)
    end.
    eexists evs, _, _, r, k. split; [reflexivity |]. repeat split; first [done | lia].
  - unfold has_zero_length in Hzero.
    destruct (nullish (waiters (app w))) eqn:Hnull.
    + unfold initializeWaiters, get_app, length_of. unfold bind at 1 2.
      rewrite Hnull.
      eexists [], (app w), (ids w), _, 0%nat. rewrite app_nil_r.
      split; [by destruct w |]. repeat split; first [done | lia].
    + cbn [negb andb] in Hzero.
      rewrite (initializeWaiters_present respond generateId_at w Hnull Hzero).
      eexists [], (app w), (ids w), _, 0%nat. rewrite app_nil_r.
      split; [by destruct w |]. repeat split; first [done | lia].
Qed.

(** X17 — Whatever the server answers, [initializeDefaultData] sends
    nothing but what it holds: its requests are at most three saves of the
    menu followed by at most three saves of the waiters, each carrying the
    collection as [AppState] has it when the call ends; and of [AppState]
    it changes the menu and the waiters at most. *)
Theorem initializeDefaultData_sends_what_it_holds w :
  let run := initializeDefaultData respond generateId_at in
  let s' := app (run w).1 in
  ∃ k k',
    (k ≤ 3)%nat ∧ (k' ≤ 3)%nat
    ∧ requests (events_of run w)
      = replicate k (API.save_request "menu_items" (menuItems s'))
        ++ replicate k' (API.save_request "waiters" (waiters s'))
    ∧ same_but_menu_and_waiters (app w) s'.
Proof.
  cbv zeta.
  destruct (initializeMenuItems_footprint w)
    as (evs & s1 & ids1 & r & k & Hmenu & Hreq & Hk & Hwaiters & Hsame).
  unfold events_of, initializeDefaultData, bind. rewrite Hmenu.
  destruct r as [e | []]; cbn [fst app trace].
  - exists k, 0%nat. rewrite drop_app_length. cbn [replicate].
    rewrite app_nil_r. repeat split; first [done | lia | apply Hsame].
  - destruct (initializeWaiters_footprint (mkWorld s1 (trace w ++ evs) ids1))
      as (evs' & s2 & ids2 & r' & k' & -> & Hreq' & Hk' & Hmenu' & Hsame').
    cbn [fst app trace] in *.
    exists k, k'. rewrite <- app_assoc, drop_app_length, requests_app.
    rewrite Hreq, Hreq', Hmenu'. repeat split; try done.
    all: destruct Hsame as (? & ? & ? & ? & ?);
      destruct Hsame' as (? & ? & ? & ? & ?); congruence.
Qed.

End Footprint.

(** ** [Storage] *)

Section StorageFacts.

Variable JSON_stringify : value → exn + option string.
Variable JSON_parse : string → exn + value.
Variable setItem_error : gmap string string → string → string → option exn.

(** X18 — What [Storage.set] stored is what [Storage.get] reads: after a
    [set] that went through, [get] of the same key gives what
    [JSON.parse] makes of the text [JSON.stringify] gave for the value
    (of the word [undefined], when it gave none), and every other key
    reads as before. *)
Theorem Storage_get_after_set key v store store' data :
  JSON_stringify v = inr data →
  default "undefined" data ≠ "" →
  Storage.set JSON_stringify setItem_error key v store = inr store' →
  Storage.get JSON_parse key store' = JSON_parse (default "undefined" data)
  ∧ ∀ other, other ≠ key →
      Storage.get JSON_parse other store' = Storage.get JSON_parse other store.
Proof.
  intros Hdata Htext Hset.
  unfold Storage.set, Storage.setItem in Hset. rewrite Hdata in Hset.
  destruct (setItem_error store key _); [done |].
  injection Hset as <-. unfold Storage.get. split.
  - rewrite lookup_insert_eq. apply String.eqb_neq in Htext. by rewrite Htext.
  - intros other Hother. by rewrite lookup_insert_ne.
Qed.

(** X19 — A key that was removed, or never set, reads as [null], without
    the parser being consulted; and [Storage.remove] leaves every other
    key as it reads. *)
Theorem Storage_get_after_remove key store :
  Storage.get JSON_parse key (Storage.remove key store) = inr VNull
  ∧ (store !! key = None → Storage.get JSON_parse key store = inr VNull)
  ∧ ∀ other, other ≠ key →
      Storage.get JSON_parse other (Storage.remove key store)
      = Storage.get JSON_parse other store.
Proof.
  unfold Storage.get, Storage.remove. split; [| split].
  - by rewrite lookup_delete_eq.
  - by intros ->.
  - intros other Hother. by rewrite lookup_delete_ne.
Qed.

End StorageFacts.

Lemma Storage_get_after_set_witness :
  let store' := <["cart" := "null"]> (∅ : gmap string string) in
  Storage.get sample_parse "cart" store' = sample_parse "null"
  ∧ ∀ other, other ≠ "cart" →
      Storage.get sample_parse other store' = Storage.get sample_parse other ∅.
Proof.
  apply (Storage_get_after_set sample_stringify sample_parse no_quota
           "cart" VNull ∅ _ (Some "null")).
  - reflexivity.
  - discriminate.
  - reflexivity.
Defined.

(** ** [getMonthKey] *)

Section MonthKeyFacts.

Variable formatToParts :
  string → ResolvedOptions → Z → exn + list (string * string).

Lemma part_or_cases type fallback parts :
  fallback ≠ "" →
  let text := Utils.part_or type fallback parts in
  text ≠ "" ∧ (text = fallback ∨ (type, text) ∈ parts).
Proof.
  intros Hfallback. cbv zeta. unfold Utils.part_or.
  destruct (List.find _ parts) as [[type' text] |] eqn:Hfind; [| by split; [| left]].
  apply find_some in Hfind as [Hin Htype]. cbn [fst snd] in *.
  apply String.eqb_eq in Htype as ->.
  destruct (String.eqb text "") eqn:Htext; [by split; [| left] |].
  apply String.eqb_neq in Htext. split; [done |]. right.
  by apply list_elem_of_In.
Qed.

(** X20 — A month key never has an empty component: whenever the
    formatter returns, in whatever order and with whatever parts,
    [getMonthKey] returns a text [year-month] whose year is the text of
    one of the formatter's [year] parts or [0000], whose month is the
    text of one of its [month] parts or [01], neither of them empty. *)
Theorem getMonthKey_components amb date timeZone parts :
  formatToParts "en-CA"
    (mkResolved (default APP_TIMEZONE timeZone)
       (mkOptions (Some (default APP_TIMEZONE timeZone)) (Some "numeric")
                  (Some "2-digit") None None None))
    (default (now amb) date) = inr parts →
  ∃ year month,
    Utils.getMonthKey formatToParts amb date timeZone
      = inr (year +:+ "-" +:+ month)
    ∧ year ≠ "" ∧ month ≠ ""
    ∧ (year = "0000" ∨ ("year", year) ∈ parts)
    ∧ (month = "01" ∨ ("month", month) ∈ parts).
Proof.
  intros Hparts. unfold Utils.getMonthKey. cbv zeta.
  match goal with
  | |- context [formatToParts ?locale ?options ?instant] =>
      replace (formatToParts locale options instant)
        with (inr (A:=exn) parts) by (symmetry; exact Hparts)
  end.
  destruct (part_or_cases "year" "0000" parts ltac:(done)) as [Hyear Hyear'].
  destruct (part_or_cases "month" "01" parts ltac:(done)) as [Hmonth Hmonth'].
  by eexists _, _.
Qed.

End MonthKeyFacts.

Lemma getMonthKey_components_witness :
  ∃ year month,
    Utils.getMonthKey sample_parts (mkAmbient "Europe/Madrid" 0) None None
      = inr (year +:+ "-" +:+ month)
    ∧ year ≠ "" ∧ month ≠ ""
    ∧ (year = "0000"
       ∨ ("year", year) ∈ [("month", "11"); ("literal", "/"); ("year", "2026")])
    ∧ (month = "01"
       ∨ ("month", month) ∈ [("month", "11"); ("literal", "/"); ("year", "2026")]).
Proof.
  apply (getMonthKey_components sample_parts (mkAmbient "Europe/Madrid" 0)
           None None).
  reflexivity.
Defined.
